(** * SM CNN answer-selection model ([sm_cnn/tutorial.ipynb])

    A shallow embedding of the [QAModel] class of the walkthrough notebook:
    its constructor [__init__], its [forward] pass, and the PyTorch layers the
    class is assembled from ([nn.Conv1d], [nn.Tanh], [F.max_pool1d],
    [Tensor.view], [torch.cat], [nn.Linear], [nn.Dropout], [nn.LogSoftmax]).

    Tensors are nested lists in the axis order PyTorch uses: a 3-axis tensor
    (batch, channel, position) is a [list (list (list T))], a 2-axis tensor
    (batch, feature) is a [list (list T)].  The element type [T] is abstract
    (class [Scalar]); the structural results hold for every instance, and the
    results that need analysis (the log-softmax normalisation, the order of
    the pooled values) are proved for the instance of the real numbers, i.e.
    for the exact arithmetic that the float32 computation approximates.
    Where rounding changes the answer (the saturation of [tanh]) a second
    arithmetic, [Scalar_F32], rounds every operation to binary32. *)

From Stdlib Require Import String.
From Stdlib Require Import List Arith Lia ZArith Bool Reals Lra.
From Stdlib Require Import Zfloor.
Import ListNotations.

Set Implicit Arguments.

(** ** Exceptions and results

    A Python call either returns a value or raises; the exception is recorded
    by the name of its class. *)

Inductive result (A : Type) : Type :=
| Ok (a : A)
| Raise (exc : string).

Arguments Ok {A} a.
Arguments Raise {A} exc.

Definition RuntimeError : string := "RuntimeError"%string.
Definition TypeError : string := "TypeError"%string.

Definition bind {A B : Type} (c : result A) (k : A -> result B) : result B :=
  match c with
  | Ok a => k a
  | Raise e => Raise e
  end.

Notation "x <- c ;; k" := (bind c (fun x => k))
  (at level 61, c at next level, right associativity).

Fixpoint mapM {A B : Type} (f : A -> result B) (l : list A) : result (list B) :=
  match l with
  | [] => Ok []
  | a :: r => b <- f a ;; bs <- mapM f r ;; Ok (b :: bs)
  end.

Definition is_ok {A : Type} (c : result A) : bool :=
  match c with Ok _ => true | Raise _ => false end.

(** ** Scalars *)

Class Scalar (T : Type) : Type := {
  s0 : T;
  s1 : T;
  sadd : T -> T -> T;
  ssub : T -> T -> T;
  smul : T -> T -> T;
  sdiv : T -> T -> T;
  smax : T -> T -> T;
  stanh : T -> T;
  sexp : T -> T;
  slog : T -> T
}.

#[export] Instance Scalar_R : Scalar R := {
  s0 := 0%R;
  s1 := 1%R;
  sadd := Rplus;
  ssub := Rminus;
  smul := Rmult;
  sdiv := Rdiv;
  smax := Rmax;
  stanh := tanh;
  sexp := exp;
  slog := ln
}.

(** ** Generic list helpers *)

Section ListHelpers.
Variables A B C : Type.

Fixpoint map2 (f : A -> B -> C) (l : list A) (l' : list B) : list C :=
  match l, l' with
  | a :: r, b :: r' => f a b :: map2 f r r'
  | _, _ => []
  end.

Fixpoint imap_from (i : nat) (f : nat -> A -> B) (l : list A) : list B :=
  match l with
  | [] => []
  | a :: r => f i a :: imap_from (S i) f r
  end.

Definition imap (f : nat -> A -> B) (l : list A) : list B := imap_from 0 f l.

(** Consecutive blocks of [k] elements; an incomplete last block is dropped.
    [fuel] bounds the number of blocks. *)
Fixpoint chunks (fuel k : nat) (l : list A) : list (list A) :=
  match fuel with
  | 0 => []
  | S fuel' =>
      if length l <? k then []
      else firstn k l :: chunks fuel' k (skipn k l)
  end.

Definition tabulate (n : nat) (f : nat -> A) : list A := map f (seq 0 n).
End ListHelpers.

(** ** Tensors and the PyTorch layers *)

Definition tensor1 (T : Type) := list T.
Definition tensor2 (T : Type) := list (list T).
Definition tensor3 (T : Type) := list (list (list T)).

(** Length of the position axis of one sample (channel x position). *)
Definition seq_len {T : Type} (x : tensor2 T) : nat :=
  match x with
  | [] => 0
  | row :: _ => length row
  end.

(** [q.size()[2]] *)
Definition size2 {T : Type} (q : tensor3 T) : nat :=
  match q with
  | [] => 0
  | x :: _ => seq_len x
  end.

(** Shape tests. *)
Definition is_row {T : Type} (n : nat) (r : list T) : bool := length r =? n.

Definition is_shape2 {T : Type} (b n : nat) (x : tensor2 T) : bool :=
  (length x =? b) && forallb (is_row n) x.

Definition is_shape3 {T : Type} (b c l : nat) (x : tensor3 T) : bool :=
  (length x =? b) && forallb (is_shape2 c l) x.

Module Torch.
Section Layers.
Context {T : Type} {ST : Scalar T}.

(** The size formula of the PyTorch documentation,
    [L_out = L_in + 2 * padding - kernel_size + 1], also covers a sample
    with no position at all ([L_in = 0]), whereas PyTorch's convolution
    backends refuse a tensor without elements before the formula applies.
    The flag [rejects_empty] tells which of the two the layer does:
    [true] is PyTorch, [false] the documented formula taken alone.  The
    results on sequences of at least one position hold for both values; the
    result on empty sequences is stated for PyTorch's. *)
Variable rejects_empty : bool.

Definition sum (l : list T) : T := fold_right sadd s0 l.

Definition dot (u v : list T) : T := sum (map2 smul u v).

Definition maximum (l : list T) : T :=
  match l with
  | [] => s0
  | x :: r => fold_left smax r x
  end.

(** *** [nn.Conv1d(in_channels, out_channels, kernel_size, padding=...)] *)

Record Conv1d : Type := {
  in_channels : nat;
  out_channels : nat;
  kernel_size : nat;
  padding : Z;
  weight : tensor3 T;      (* out_channels x in_channels x kernel_size *)
  bias : tensor1 T         (* out_channels *)
}.

(** Zero padding of one row on both sides. *)
Definition pad (p : nat) (row : list T) : list T :=
  repeat s0 p ++ row ++ repeat s0 p.

(** The window of width [k] starting at position [t]. *)
Definition window (k t : nat) (row : list T) : list T :=
  firstn k (skipn t row).

(** Cross-correlation of one filter (in_channels x kernel_size) with the
    padded sample at position [t]. *)
Definition cross_correlate (k : nat) (w : tensor2 T) (xp : tensor2 T) (t : nat) : T :=
  sum (map2 (fun wi xi => dot wi (window k t xi)) w xp).

Definition Conv1d_sample (c : Conv1d) (x : tensor2 T) : result (tensor2 T) :=
  if negb (length x =? in_channels c) then Raise RuntimeError
  else if rejects_empty && (0 <? in_channels c) && (seq_len x =? 0) then Raise RuntimeError
  else if (padding c <? 0)%Z then Raise RuntimeError
  else
    let p := Z.to_nat (padding c) in
    let xp := map (pad p) x in
    let lp := seq_len x + 2 * p in
    if (kernel_size c =? 0) || (lp <? kernel_size c) then Raise RuntimeError
    else
      Ok (map2 (fun w b =>
                  map (fun t => sadd b (cross_correlate (kernel_size c) w xp t))
                      (seq 0 (lp - kernel_size c + 1)))
               (weight c) (bias c)).

Definition Conv1d_forward (c : Conv1d) (x : tensor3 T) : result (tensor3 T) :=
  mapM (Conv1d_sample c) x.

(** *** [nn.Tanh()] *)
Definition Tanh2 (x : tensor2 T) : tensor2 T := map (map stanh) x.
Definition Tanh3 (x : tensor3 T) : tensor3 T := map Tanh2 x.

(** *** [nn.Sequential(nn.Conv1d(...), nn.Tanh())] *)
Definition Sequential_forward (c : Conv1d) (x : tensor3 T) : result (tensor3 T) :=
  y <- Conv1d_forward c x ;; Ok (Tanh3 y).

(** *** [F.max_pool1d(x, kernel_size)] (stride = kernel size, no padding) *)
Definition max_pool_row (k : nat) (row : list T) : result (list T) :=
  if (k =? 0) || (length row <? k) then Raise RuntimeError
  else Ok (map maximum (chunks (length row) k row)).

Definition max_pool1d (x : tensor3 T) (k : nat) : result (tensor3 T) :=
  mapM (mapM (max_pool_row k)) x.

(** *** [x.view(-1, n)] on a 3-axis tensor *)
Definition flatten3 (x : tensor3 T) : list T := concat (map (@concat T) x).

Definition view (n : nat) (x : tensor3 T) : result (tensor2 T) :=
  let flat := flatten3 x in
  if n =? 0 then Raise RuntimeError
  else if negb (length flat mod n =? 0) then Raise RuntimeError
  else Ok (chunks (length flat) n flat).

(** *** [torch.cat(tensors, 1)] on 2-axis tensors *)
Definition cat1 (ts : list (tensor2 T)) : result (tensor2 T) :=
  match ts with
  | [] => Raise RuntimeError
  | t :: rest =>
      if forallb (fun u => length u =? length t) rest
      then Ok (fold_left (map2 (@app T)) rest t)
      else Raise RuntimeError
  end.

(** *** [nn.Linear(in_features, out_features)] *)
Record Linear : Type := {
  in_features : nat;
  out_features : nat;
  lin_weight : tensor2 T;  (* out_features x in_features *)
  lin_bias : tensor1 T     (* out_features *)
}.

Definition Linear_row (l : Linear) (row : list T) : result (list T) :=
  if length row =? in_features l
  then Ok (map2 (fun w b => sadd (dot row w) b) (lin_weight l) (lin_bias l))
  else Raise RuntimeError.

Definition Linear_forward (l : Linear) (x : tensor2 T) : result (tensor2 T) :=
  mapM (Linear_row l) x.

(** *** [nn.Dropout(p)]

    [keep i j] is the Bernoulli draw for element (i, j) of the input; it is
    consulted in training mode only. *)
Definition Dropout_forward (p : T) (training : bool) (keep : nat -> nat -> bool)
           (x : tensor2 T) : tensor2 T :=
  if training
  then imap (fun i row =>
               imap (fun j v => if keep i j then sdiv v (ssub s1 p) else s0) row) x
  else x.

(** *** [nn.LogSoftmax()] on a 2-axis tensor (normalises each row) *)
Definition LogSoftmax_row (row : list T) : list T :=
  let m := maximum row in
  let lse := slog (sum (map (fun v => sexp (ssub v m)) row)) in
  map (fun v => ssub (ssub v m) lse) row.

Definition LogSoftmax (x : tensor2 T) : tensor2 T := map LogSoftmax_row x.

(** *** Layer constructors

    The constructors fix the shapes; the initial values of the parameters
    are drawn at random by PyTorch and are taken here as index functions. *)
Definition Conv1d_init (cin cout k : nat) (p : Z)
           (w : nat -> nat -> nat -> T) (b : nat -> T) : Conv1d :=
  {| in_channels := cin;
     out_channels := cout;
     kernel_size := k;
     padding := p;
     weight := tabulate cout (fun o => tabulate cin (fun i => tabulate k (w o i)));
     bias := tabulate cout b |}.

Definition Linear_init (n_in n_out : nat)
           (w : nat -> nat -> T) (b : nat -> T) : Linear :=
  {| in_features := n_in;
     out_features := n_out;
     lin_weight := tabulate n_out (fun o => tabulate n_in (w o));
     lin_bias := tabulate n_out b |}.
End Layers.
End Torch.

(** ** The model class *)

Section Model.
Context {T : Type} {ST : Scalar T}.
Variable rejects_empty : bool.

Import Torch.

Record QAModel : Type := {
  no_ext_feats : bool;
  conv_channels : nat;
  conv_q : Conv1d (T:=T);                  (* nn.Sequential(nn.Conv1d, nn.Tanh) *)
  conv_a : Conv1d (T:=T);                  (* nn.Sequential(nn.Conv1d, nn.Tanh) *)
  combined_feature_vector : Linear (T:=T);
  dropout : T;                             (* nn.Dropout(p) *)
  hidden : Linear (T:=T);
  training : bool                          (* nn.Module.training *)
}.

(** Initial parameter values of the four parameterised layers. *)
Record InitialValues : Type := {
  conv_q_weight : nat -> nat -> nat -> T;
  conv_q_bias : nat -> T;
  conv_a_weight : nat -> nat -> nat -> T;
  conv_a_bias : nat -> T;
  combined_weight : nat -> nat -> T;
  combined_bias : nat -> T;
  hidden_weight : nat -> nat -> T;
  hidden_bias : nat -> T
}.

(** [QAModel.__init__(input_n_dim, filter_width, conv_filters, no_ext_feats,
    ext_feats_size, n_classes)] *)
Definition QAModel_init (input_n_dim filter_width conv_filters : nat)
           (no_ext : bool) (ext_feats_size n_classes : nat)
           (iv : InitialValues) : QAModel :=
  let n_hidden := 2 * conv_filters + (if no_ext then 0 else ext_feats_size) in
  {| no_ext_feats := no_ext;
     conv_channels := conv_filters;
     conv_q := Conv1d_init input_n_dim conv_filters filter_width
                 (Z.of_nat filter_width - 1) (conv_q_weight iv) (conv_q_bias iv);
     conv_a := Conv1d_init input_n_dim conv_filters filter_width
                 (Z.of_nat filter_width - 1) (conv_a_weight iv) (conv_a_bias iv);
     combined_feature_vector :=
       Linear_init (2 * conv_filters + (if no_ext then 0 else ext_feats_size)) n_hidden
         (combined_weight iv) (combined_bias iv);
     dropout := sdiv s1 (sadd s1 s1);      (* 0.5 *)
     hidden := Linear_init n_hidden n_classes (hidden_weight iv) (hidden_bias iv);
     training := true |}.

(** [model.eval()] *)
Definition eval (m : QAModel) : QAModel :=
  {| no_ext_feats := no_ext_feats m;
     conv_channels := conv_channels m;
     conv_q := conv_q m;
     conv_a := conv_a m;
     combined_feature_vector := combined_feature_vector m;
     dropout := dropout m;
     hidden := hidden m;
     training := false |}.

(** [QAModel.forward(question, answer, ext_feats)].  [keep] stands for the
    random draws of the dropout layer; [ext_feats] is [None] when the caller
    passes [None]. *)
Definition forward (m : QAModel) (keep : nat -> nat -> bool)
           (question answer : tensor3 T) (ext_feats : option (tensor2 T))
  : result (tensor2 T) :=
  q <- Sequential_forward rejects_empty (conv_q m) question ;;
  q <- max_pool1d q (size2 q) ;;
  q <- view (conv_channels m) q ;;
  a <- Sequential_forward rejects_empty (conv_a m) answer ;;
  a <- max_pool1d a (size2 a) ;;
  a <- view (conv_channels m) a ;;
  x <- (if no_ext_feats m then cat1 [q; a]
        else match ext_feats with
             | Some e => cat1 [q; a; e]
             | None => Raise TypeError
             end) ;;
  x <- Linear_forward (combined_feature_vector m) x ;;
  let x := Tanh2 x in
  let x := Dropout_forward (dropout m) (training m) keep x in
  x <- Linear_forward (hidden m) x ;;
  Ok (LogSoftmax x).

(** The three statements [forward] applies to each side: convolution with
    tanh, pooling over the whole feature map, reshape to
    (batch, conv_channels). *)
Definition branch (m : QAModel) (c : Conv1d) (x : tensor3 T) : result (tensor2 T) :=
  q <- Sequential_forward rejects_empty c x ;;
  q <- max_pool1d q (size2 q) ;;
  view (conv_channels m) q.

(** The value of [x] in [forward] after [self.hidden(x)], before the final
    [self.logsoftmax(x)]. *)
Definition logits (m : QAModel) (keep : nat -> nat -> bool)
           (question answer : tensor3 T) (ext_feats : option (tensor2 T))
  : result (tensor2 T) :=
  q <- branch m (conv_q m) question ;;
  a <- branch m (conv_a m) answer ;;
  x <- (if no_ext_feats m then cat1 [q; a]
        else match ext_feats with
             | Some e => cat1 [q; a; e]
             | None => Raise TypeError
             end) ;;
  x <- Linear_forward (combined_feature_vector m) x ;;
  let x := Tanh2 x in
  let x := Dropout_forward (dropout m) (training m) keep x in
  Linear_forward (hidden m) x.
End Model.

(** ** The scoring function as the specification words it

    Written from the component design of the specification (ConvolutionBranch
    and PairScorer.score), with explicit indices instead of list traversals
    and without any shape check. *)

Module Spec.
Section Scoring.
Context {T : Type} {ST : Scalar T}.

Import Torch.

Definition bigsum (n : nat) (f : nat -> T) : T :=
  fold_right sadd s0 (map f (seq 0 n)).

Definition entry2 (x : tensor2 T) (i j : nat) : T := nth j (nth i x []) s0.
Definition entry3 (w : tensor3 T) (c i k : nat) : T := nth k (nth i (nth c w []) []) s0.

(** Step 1 of ConvolutionBranch: the sequence padded by [p] positions on
    each side, read at position [j]. *)
Definition padded_at (p : nat) (row : list T) (j : nat) : T :=
  if j <? p then s0 else nth (j - p) row s0.

(** Step 2: the scalar filter [ch] produces at position [t]. *)
Definition filter_response (c : Conv1d) (x : tensor2 T) (ch t : nat) : T :=
  sadd (nth ch (bias c) s0)
       (bigsum (in_channels c) (fun i =>
          bigsum (kernel_size c) (fun k =>
            smul (entry3 (weight c) ch i k)
                 (padded_at (kernel_size c - 1) (nth i x []) (t + k))))).

(** Steps 1 to 3: the activated response of every filter at every position
    of the padded sequence, [seq_len + filter_width - 1] positions in all. *)
Definition feature_maps (c : Conv1d) (x : tensor3 T) : tensor3 T :=
  map (fun sample =>
         map (fun ch =>
                map (fun t => stanh (filter_response c sample ch t))
                    (seq 0 (seq_len sample + kernel_size c - 1)))
             (seq 0 (out_channels c)))
      x.

(** Steps 3 to 5: bounded nonlinearity, maximum over all
    [seq_len + filter_width - 1] positions, one scalar per channel. *)
Definition ConvolutionBranch (c : Conv1d) (x : tensor3 T) : tensor2 T :=
  map (fun sample =>
         map (fun ch =>
                maximum (map (fun t => stanh (filter_response c sample ch t))
                             (seq 0 (seq_len sample + kernel_size c - 1))))
             (seq 0 (out_channels c)))
      x.

Definition affine (l : Linear) (v : list T) : list T :=
  map (fun j =>
         sadd (bigsum (in_features l) (fun i => smul (nth i v s0) (entry2 (lin_weight l) j i)))
              (nth j (lin_bias l) s0))
      (seq 0 (out_features l)).

Definition regularize (p : T) (training : bool) (keep : nat -> bool) (h : list T) : list T :=
  if training
  then map (fun j => if keep j then sdiv (nth j h s0) (ssub s1 p) else s0) (seq 0 (length h))
  else h.

Definition log_softmax (logits : list T) : list T :=
  let m := maximum logits in
  let lse := slog (bigsum (length logits) (fun j => sexp (ssub (nth j logits s0) m))) in
  map (fun v => ssub (ssub v m) lse) logits.

Definition aux_row (aux : option (tensor2 T)) (b : nat) : list T :=
  match aux with
  | Some e => nth b e []
  | None => []
  end.

(** PairScorer.score, steps 1 to 7: the class scores of every
    question/answer pair. *)
Definition logits (m : QAModel) (keep : nat -> nat -> bool)
           (question answer : tensor3 T) (aux : option (tensor2 T)) : tensor2 T :=
  let q_vec := ConvolutionBranch (conv_q m) question in
  let a_vec := ConvolutionBranch (conv_a m) answer in
  map (fun b =>
         let joined :=
           if no_ext_feats m then nth b q_vec [] ++ nth b a_vec []
           else nth b q_vec [] ++ nth b a_vec [] ++ aux_row aux b in
         let h := affine (combined_feature_vector m) joined in
         let h := map stanh h in
         let h := regularize (dropout m) (training m) (keep b) h in
         affine (hidden m) h)
      (seq 0 (length question)).

(** Step 8 and the output. *)
Definition score (m : QAModel) (keep : nat -> nat -> bool)
           (question answer : tensor3 T) (aux : option (tensor2 T)) : tensor2 T :=
  map log_softmax (logits m keep question answer aux).
End Scoring.
End Spec.

(** ** Well-formed models and inputs *)

Section WellFormed.
Context {T : Type} {ST : Scalar T}.

Import Torch.

(** A convolution layer as [QAModel.__init__] builds it: positive sizes,
    padding [kernel_size - 1], parameters of the declared shapes. *)
Definition wf_conv (c : Conv1d (T:=T)) : bool :=
  (1 <=? in_channels c) && (1 <=? kernel_size c)
  && (padding c =? Z.of_nat (kernel_size c) - 1)%Z
  && is_shape3 (out_channels c) (in_channels c) (kernel_size c) (weight c)
  && (length (bias c) =? out_channels c).

Definition wf_linear (l : Linear (T:=T)) : bool :=
  is_shape2 (out_features l) (in_features l) (lin_weight l)
  && (length (lin_bias l) =? out_features l).

(** Number of auxiliary features the projection layer leaves room for. *)
Definition aux_width (m : QAModel (T:=T)) : nat :=
  in_features (combined_feature_vector m) - 2 * conv_channels m.

Definition wf_model (m : QAModel (T:=T)) : bool :=
  wf_conv (conv_q m) && wf_conv (conv_a m) && (1 <=? conv_channels m)
  && (out_channels (conv_q m) =? conv_channels m)
  && (out_channels (conv_a m) =? conv_channels m)
  && wf_linear (combined_feature_vector m) && wf_linear (hidden m)
  && (2 * conv_channels m <=? in_features (combined_feature_vector m))
  && (if no_ext_feats m then aux_width m =? 0 else true)
  && (in_features (hidden m) =? out_features (combined_feature_vector m)).

(** Sequence lengths the convolution layer accepts: at least one position,
    or none at all when the backend lets such a sample through and the
    padding alone is as wide as the filter. *)
Definition convolvable (rejects_empty : bool) (k l : nat) : bool :=
  (1 <=? l) || (negb rejects_empty && (2 <=? k)).

(** A batch [b] of questions of length [lq] and answers of length [la],
    with the auxiliary features the model was configured for. *)
Definition valid_input (m : QAModel (T:=T)) (b lq la : nat)
           (question answer : tensor3 T) (ext_feats : option (tensor2 T)) : bool :=
  (1 <=? lq) && (1 <=? la)
  && is_shape3 b (in_channels (conv_q m)) lq question
  && is_shape3 b (in_channels (conv_a m)) la answer
  && (if no_ext_feats m then true
      else match ext_feats with
           | Some e => is_shape2 b (aux_width m) e
           | None => false
           end).
End WellFormed.

(** ** A small configuration over the reals

    Embedding dimension 1, one filter per branch, four auxiliary features,
    two classes; all weights 1 and all biases 0. *)

Module Example.
Import Torch.
Local Open Scope R_scope.

Definition ones : InitialValues (T:=R) :=
  {| conv_q_weight := fun _ _ _ => 1;
     conv_q_bias := fun _ => 0;
     conv_a_weight := fun _ _ _ => 1;
     conv_a_bias := fun _ => 0;
     combined_weight := fun _ _ => 1;
     combined_bias := fun _ => 0;
     hidden_weight := fun _ _ => 1;
     hidden_bias := fun _ => 0 |}.

Definition keep_all : nat -> nat -> bool := fun _ _ => true.
Definition keep_none : nat -> nat -> bool := fun _ _ => false.

(** Filter width 2, in inference mode, with and without auxiliary features. *)
Definition with_feats : QAModel (T:=R) := eval (QAModel_init 1 2 1 false 4 2 ones).
Definition without_feats : QAModel (T:=R) := eval (QAModel_init 1 2 1 true 4 2 ones).

Definition width1 : QAModel (T:=R) := eval (QAModel_init 1 1 1 true 4 2 ones).

Definition question : tensor3 R := [[[1; 2]]].
Definition answer : tensor3 R := [[[3]]].
Definition feats : tensor2 R := [[0; 0; 0; 0]].
Definition feats3 : tensor2 R := [[0; 0; 0]].

(** One answer whose word vectors have two components. *)
Definition wide_answer : tensor3 R := [[[3]; [4]]].

(** One question without any token: shape (1, 1, 0). *)
Definition empty_question : tensor3 R := [[[]]].
End Example.

(** ** The walkthrough cells of the notebook

    After the bootstrapping code the notebook copies the statements of
    [forward] into cells of their own, applied to [trained_model], [xq],
    [xa] and [x_ext_feats], and shows the value after each; the dropout cell
    also prints the first ten elements of the first row before and after
    the layer; the last cell exponentiates the log-probabilities.  The cells
    always take the path with external features. *)

Section Walkthrough.
Context {T : Type} {ST : Scalar T}.
Variable rejects_empty : bool.

Import Torch.

(** [torch.exp(x)] on a 2-axis tensor. *)
Definition torch_exp (x : tensor2 T) : tensor2 T := map (map sexp) x.

Definition IndexError : string := "IndexError"%string.

(** [x[0, :10]]: the first row, up to ten elements of it. *)
Definition first_elements (x : tensor2 T) : result (list T) :=
  match x with
  | [] => Raise IndexError
  | row :: _ => Ok (firstn 10 row)
  end.

(** The value each cell leaves behind, and the two rows the dropout cell
    prints. *)
Record Cells : Type := {
  q_conv : tensor3 T;        (* q = trained_model.conv_q.forward(xq) *)
  q_pooled : tensor3 T;      (* q = F.max_pool1d(q, q.size()[2]) *)
  q_vec : tensor2 T;         (* q = q.view(-1, trained_model.conv_channels) *)
  a_vec : tensor2 T;         (* the same three statements for xa *)
  joined : tensor2 T;        (* x = torch.cat([q, a, x_ext_feats], 1) *)
  projected : tensor2 T;     (* x = trained_model.combined_feature_vector.forward(x) *)
  activated : tensor2 T;     (* x = trained_model.combined_features_activation.forward(x) *)
  before_dropout : list T;   (* print('First 10 elements before Dropout', x[0, :10]...) *)
  dropped : tensor2 T;       (* x = trained_model.dropout(x) *)
  after_dropout : list T;    (* print('First 10 elements after Dropout', x[0, :10]...) *)
  class_scores : tensor2 T;  (* x = trained_model.hidden(x) *)
  log_probs : tensor2 T;     (* x = trained_model.logsoftmax(x) *)
  probs : tensor2 T          (* torch.exp(x) *)
}.

Definition walkthrough (trained_model : QAModel (T:=T)) (keep : nat -> nat -> bool)
           (xq xa : tensor3 T) (x_ext_feats : tensor2 T) : result Cells :=
  q1 <- Sequential_forward rejects_empty (conv_q trained_model) xq ;;
  q2 <- max_pool1d q1 (size2 q1) ;;
  q <- view (conv_channels trained_model) q2 ;;
  a <- Sequential_forward rejects_empty (conv_a trained_model) xa ;;
  a <- max_pool1d a (size2 a) ;;
  a <- view (conv_channels trained_model) a ;;
  x1 <- cat1 [q; a; x_ext_feats] ;;
  x2 <- Linear_forward (combined_feature_vector trained_model) x1 ;;
  let x3 := Tanh2 x2 in
  p1 <- first_elements x3 ;;
  let x4 := Dropout_forward (dropout trained_model) (training trained_model) keep x3 in
  p2 <- first_elements x4 ;;
  x5 <- Linear_forward (hidden trained_model) x4 ;;
  let x6 := LogSoftmax x5 in
  Ok {| q_conv := q1; q_pooled := q2; q_vec := q; a_vec := a; joined := x1;
        projected := x2; activated := x3; before_dropout := p1;
        dropped := x4; after_dropout := p2; class_scores := x5;
        log_probs := x6; probs := torch_exp x6 |}.
End Walkthrough.

(** ** More small configurations over the reals *)

Module Loaded.
Import Torch Example.
Local Open Scope R_scope.

(** A model as [QAModel.load] may return it: the layers agree with one
    another, but the projection layer maps the 6 joined features to 3 hidden
    units, a width the constructor of this notebook would not choose (the
    walkthrough shows 204 and 201). *)
Definition pretrained : QAModel (T:=R) :=
  {| no_ext_feats := false;
     conv_channels := 1;
     conv_q := Conv1d_init 1 1 2 1 (fun _ _ _ => 1) (fun _ => 0);
     conv_a := Conv1d_init 1 1 2 1 (fun _ _ _ => 1) (fun _ => 0);
     combined_feature_vector := Linear_init 6 3 (fun _ _ => 1) (fun _ => 0);
     dropout := 1 / 2;
     hidden := Linear_init 3 2 (fun _ _ => 1) (fun _ => 0);
     training := false |}.

(** A model fresh from the constructor (training mode). *)
Definition fresh : QAModel (T:=R) := QAModel_init 1 2 1 false 4 2 ones.

(** Two question/answer pairs. *)
Definition questions2 : tensor3 R := [[[1; 2]]; [[3; 4]]].
Definition answers2 : tensor3 R := [[[3]]; [[5]]].
Definition feats2 : tensor2 R := [[0; 0; 0; 0]; [1; 0; 0; 0]].

(** A question whose word vectors have two components instead of one. *)
Definition question_dim2 : tensor3 R := [[[1; 2]; [3; 4]]].
End Loaded.

(** ** Binary32 scalars

    The tensors of the notebook are [torch.FloatTensor]s: every arithmetic
    operation returns the binary32 number nearest to the exact result.  The
    numbers are kept as the reals they denote; [tanh], [exp] and [log] are
    taken as correctly rounded. *)

Section Binary32.
Local Open Scope R_scope.

(** Round to the nearest integer, ties to even. *)
Definition rne (z : R) : Z :=
  let f := Zfloor z in
  let r := z - IZR f in
  if Rlt_dec r (1 / 2) then f
  else if Rlt_dec (1 / 2) r then (f + 1)%Z
  else if Z.even f then f else (f + 1)%Z.

(** Binary exponent of a nonzero real: [2 ^ e <= |x| < 2 ^ (e + 1)]. *)
Definition exponent (x : R) : Z := Zfloor (ln (Rabs x) / ln 2).

(** Rounding to IEEE 754 binary32, round-to-nearest-even: 24 significant
    bits, subnormals below [2 ^ -126].  Overflow to infinity is not
    represented. *)
Definition round32 (x : R) : R :=
  if Req_dec_T x 0 then 0
  else
    let e := Z.max (exponent x) (-126) in
    let ulp := powerRZ 2 (e - 23) in
    IZR (rne (x / ulp)) * ulp.


Definition Scalar_F32 : Scalar R := {|
  s0 := 0;
  s1 := 1;
  sadd := fun x y => round32 (x + y);
  ssub := fun x y => round32 (x - y);
  smul := fun x y => round32 (x * y);
  sdiv := fun x y => round32 (x / y);
  smax := Rmax;
  stanh := fun x => round32 (tanh x);
  sexp := fun x => round32 (exp x);
  slog := fun x => round32 (ln x)
|}.
End Binary32.

Module Float32.
Import Torch Example.
Local Open Scope R_scope.

(** The configuration [Example.without_feats] computed in binary32, and a
    question whose first word vector is large. *)
Definition saturating : QAModel (T:=R) :=
  eval (QAModel_init (ST:=Scalar_F32) 1 2 1 true 4 2 ones).

Definition large_question : tensor3 R := [[[100; 0]]].
End Float32.

(** * Proofs *)

Unset Implicit Arguments.

(** ** Lists *)

Section ListFacts.
Context {A B C : Type}.

Lemma map2_length (f : A -> B -> C) (l : list A) (l' : list B) :
  length (map2 f l l') = Nat.min (length l) (length l').
Proof.
  revert l'; induction l as [|a r IH]; intros [|b r']; simpl; auto.
Qed.

Lemma map2_index (f : A -> B -> C) (da : A) (db : B) (n : nat) :
  forall (l : list A) (l' : list B),
    length l = n -> length l' = n ->
    map2 f l l' = map (fun i => f (nth i l da) (nth i l' db)) (seq 0 n).
Proof.
  induction n as [|n IH]; intros [|a r] [|b r'] Hl Hl'; simpl in *; try discriminate; auto.
  f_equal. rewrite <- seq_shift, map_map. apply IH; congruence.
Qed.

Lemma map_index (f : A -> B) (d : A) (l : list A) :
  map f l = map (fun i => f (nth i l d)) (seq 0 (length l)).
Proof.
  induction l as [|a r IH]; simpl; auto.
  f_equal. rewrite <- seq_shift, map_map. exact IH.
Qed.

Lemma imap_from_index (f : nat -> A -> B) (d : A) (l : list A) :
  forall i, imap_from i f l = map (fun j => f (i + j) (nth j l d)) (seq 0 (length l)).
Proof.
  induction l as [|a r IH]; intros i; simpl; auto.
  rewrite Nat.add_0_r. f_equal.
  rewrite <- seq_shift, map_map, IH.
  apply map_ext; intros j. now rewrite Nat.add_succ_r.
Qed.


Lemma mapM_ok (f : A -> result B) (g : A -> B) (l : list A) :
  (forall a, In a l -> f a = Ok (g a)) -> mapM f l = Ok (map g l).
Proof.
  induction l as [|a r IH]; intros H; simpl; auto.
  rewrite (H a (or_introl eq_refl)). simpl.
  rewrite IH by (intros; apply H; now right). reflexivity.
Qed.


(** The first failing element decides the exception of [mapM]. *)
Lemma mapM_raise_head (f : A -> result B) (a : A) (r : list A) (e : string) :
  f a = Raise e -> mapM f (a :: r) = Raise e.
Proof. intros H; simpl; rewrite H; reflexivity. Qed.

Lemma chunks_concat (n : nat) (rows : list (list A)) :
  1 <= n -> Forall (fun r => length r = n) rows ->
  forall fuel, length rows <= fuel -> chunks fuel n (concat rows) = rows.
Proof.
  intros Hn Hrows. induction Hrows as [|r rows Hr Hrows IH]; intros fuel Hfuel.
  - destruct fuel; simpl; auto.
    destruct n; [lia | reflexivity].
  - destruct fuel as [|fuel]; simpl in Hfuel; [lia|].
    simpl. rewrite length_app.
    replace (length r + length (concat rows) <? n) with false
      by (symmetry; apply Nat.ltb_ge; lia).
    rewrite firstn_app, skipn_app, Hr, Nat.sub_diag. simpl.
    rewrite firstn_all2, skipn_all2, app_nil_r by lia. simpl.
    f_equal. apply IH. lia.
Qed.

Lemma length_concat_uniform (n : nat) (rows : list (list A)) :
  Forall (fun r => length r = n) rows -> length (concat rows) = length rows * n.
Proof.
  induction 1 as [|r rows Hr Hrows IH]; simpl; auto.
  rewrite length_app, IH, Hr. reflexivity.
Qed.

Lemma chunks_whole (k : nat) (l : list A) :
  1 <= k -> length l = k -> chunks (length l) k l = [l].
Proof.
  intros Hk Hl.
  assert (H := chunks_concat k [l] Hk (Forall_cons _ Hl (Forall_nil _)) (length l)).
  simpl in H. rewrite app_nil_r in H. apply H. lia.
Qed.

Lemma concat_map_singleton (f : A -> B) (l : list A) :
  concat (map (fun a => [f a]) l) = map f l.
Proof. induction l; simpl; congruence. Qed.
End ListFacts.

(** ** Shapes *)

Section ShapeFacts.
Context {T : Type}.

Lemma is_shape2_spec (b n : nat) (x : tensor2 T) :
  is_shape2 b n x = true <-> length x = b /\ Forall (fun r => length r = n) x.
Proof.
  unfold is_shape2, is_row. rewrite andb_true_iff, Nat.eqb_eq, forallb_forall, Forall_forall.
  split; intros [H1 H2]; split; auto; intros r Hr; apply Nat.eqb_eq; auto.
Qed.

Lemma is_shape3_spec (b c l : nat) (x : tensor3 T) :
  is_shape3 b c l x = true <-> length x = b /\ Forall (fun s => is_shape2 c l s = true) x.
Proof.
  unfold is_shape3. rewrite andb_true_iff, Nat.eqb_eq, forallb_forall, Forall_forall.
  tauto.
Qed.

Lemma seq_len_shape (c l : nat) (x : tensor2 T) :
  1 <= c -> is_shape2 c l x = true -> seq_len x = l.
Proof.
  intros Hc H. apply is_shape2_spec in H. destruct H as [Hlen Hrows].
  destruct x as [|r x]; simpl in *; [lia|]. now inversion Hrows.
Qed.
End ShapeFacts.

(** ** The layers on well-shaped arguments *)

Section LayerFacts.
Context {T : Type} {ST : Scalar T}.

Import Torch.

Lemma pad_length (p : nat) (row : list T) : length (pad p row) = length row + 2 * p.
Proof. unfold pad. rewrite !length_app, !repeat_length. lia. Qed.

Lemma nth_pad (p : nat) (row : list T) (j : nat) :
  nth j (pad p row) s0 = Spec.padded_at p row j.
Proof.
  unfold pad, Spec.padded_at. destruct (j <? p) eqn:E.
  - apply Nat.ltb_lt in E.
    rewrite app_nth1 by (rewrite repeat_length; lia). apply nth_repeat.
  - apply Nat.ltb_ge in E.
    rewrite app_nth2 by (rewrite repeat_length; lia). rewrite repeat_length.
    destruct (Nat.lt_ge_cases (j - p) (length row)) as [H|H].
    + now rewrite app_nth1.
    + rewrite app_nth2 by lia. rewrite (nth_overflow row) by lia. apply nth_repeat.
Qed.

Lemma window_length (k t : nat) (row : list T) :
  t + k <= length row -> length (window k t row) = k.
Proof. intros H. unfold window. rewrite length_firstn, length_skipn. lia. Qed.

Lemma nth_window (k t i : nat) (row : list T) :
  i < k -> nth i (window k t row) s0 = nth (t + i) row s0.
Proof.
  intros H. unfold window. rewrite nth_firstn, nth_skipn.
  apply Nat.ltb_lt in H. now rewrite H.
Qed.

Lemma dot_index (n : nat) (u v : list T) :
  length u = n -> length v = n ->
  dot u v = Spec.bigsum n (fun i => smul (nth i u s0) (nth i v s0)).
Proof.
  intros Hu Hv. unfold dot, sum, Spec.bigsum.
  now rewrite (map2_index smul s0 s0 n u v Hu Hv).
Qed.

Lemma wf_conv_spec (c : Conv1d (T:=T)) :
  wf_conv c = true ->
  1 <= in_channels c /\ 1 <= kernel_size c
  /\ padding c = (Z.of_nat (kernel_size c) - 1)%Z
  /\ is_shape3 (out_channels c) (in_channels c) (kernel_size c) (weight c) = true
  /\ length (bias c) = out_channels c.
Proof.
  unfold wf_conv. rewrite !andb_true_iff, !Nat.leb_le, Z.eqb_eq, Nat.eqb_eq. tauto.
Qed.

Lemma wf_linear_spec (l : Linear (T:=T)) :
  wf_linear l = true ->
  is_shape2 (out_features l) (in_features l) (lin_weight l) = true
  /\ length (lin_bias l) = out_features l.
Proof. unfold wf_linear. rewrite andb_true_iff, Nat.eqb_eq. tauto. Qed.

(** The filter at row [ch] of a well-shaped kernel bank. *)
Lemma filter_shape (b c k ch : nat) (w : tensor3 T) :
  is_shape3 b c k w = true -> ch < b ->
  length (nth ch w []) = c /\ forall i, i < c -> length (nth i (nth ch w []) []) = k.
Proof.
  intros H Hch. apply is_shape3_spec in H. destruct H as [Hb Hw].
  rewrite Forall_forall in Hw.
  assert (Hin : In (nth ch w []) w) by (apply nth_In; lia).
  apply Hw, is_shape2_spec in Hin. destruct Hin as [Hc Hrows]. split; auto.
  intros i Hi. rewrite Forall_forall in Hrows. apply Hrows, nth_In. lia.
Qed.

Lemma cross_correlate_index (c : Conv1d (T:=T)) (l ch t : nat) (x : tensor2 T) :
  wf_conv c = true -> is_shape2 (in_channels c) l x = true ->
  ch < out_channels c -> t < l + kernel_size c - 1 ->
  cross_correlate (kernel_size c) (nth ch (weight c) [])
                  (map (pad (kernel_size c - 1)) x) t
  = Spec.bigsum (in_channels c) (fun i =>
      Spec.bigsum (kernel_size c) (fun k =>
        smul (Spec.entry3 (weight c) ch i k)
             (Spec.padded_at (kernel_size c - 1) (nth i x []) (t + k)))).
Proof.
  intros Hc Hx Hch Ht.
  destruct (wf_conv_spec _ Hc) as (Hin & Hk & Hp & Hw & Hb).
  destruct (filter_shape _ _ _ _ _ Hw Hch) as [Hf Hrows].
  apply is_shape2_spec in Hx. destruct Hx as [Hxl Hxr]. rewrite Forall_forall in Hxr.
  unfold cross_correlate, sum, Spec.bigsum at 1.
  rewrite (map2_index _ [] (pad (kernel_size c - 1) []) (in_channels c));
    [| assumption | now rewrite length_map].
  f_equal. apply map_ext_in. intros i Hi. apply in_seq in Hi.
  rewrite map_nth.
  assert (Hrow : length (nth i x []) = l) by (apply Hxr, nth_In; lia).
  rewrite (dot_index (kernel_size c));
    [| apply Hrows; lia | apply window_length; rewrite pad_length; lia].
  unfold Spec.bigsum. f_equal. apply map_ext_in. intros k Hk'. apply in_seq in Hk'.
  rewrite nth_window by lia. rewrite nth_pad. reflexivity.
Qed.

Variable rejects_empty : bool.

Lemma convolvable_spec (k l : nat) :
  convolvable rejects_empty k l = true <->
  1 <= l \/ (rejects_empty = false /\ 2 <= k).
Proof.
  unfold convolvable.
  rewrite orb_true_iff, andb_true_iff, negb_true_iff, !Nat.leb_le. tauto.
Qed.

(** On a sample the layer accepts, the convolution produces for every
    channel and every position of the padded sequence the filter response
    of the specification. *)
Lemma Conv1d_sample_spec (c : Conv1d (T:=T)) (l : nat) (x : tensor2 T) :
  wf_conv c = true -> convolvable rejects_empty (kernel_size c) l = true ->
  is_shape2 (in_channels c) l x = true ->
  Conv1d_sample rejects_empty c x
  = Ok (map (fun ch =>
               map (fun t => Spec.filter_response c x ch t)
                   (seq 0 (l + kernel_size c - 1)))
            (seq 0 (out_channels c))).
Proof.
  intros Hc Hl Hx. apply convolvable_spec in Hl.
  destruct (wf_conv_spec _ Hc) as (Hin & Hk & Hp & Hw & Hb).
  assert (Hsl : seq_len x = l) by (exact (seq_len_shape _ _ _ Hin Hx)).
  assert (Hxl : length x = in_channels c) by (apply is_shape2_spec in Hx; tauto).
  unfold Conv1d_sample.
  rewrite Hxl, Nat.eqb_refl, Hsl. simpl negb. cbv iota.
  replace (rejects_empty && (0 <? in_channels c) && (l =? 0)) with false.
  2:{ symmetry. destruct Hl as [Hl | [Hl _]].
      - replace (l =? 0) with false by (symmetry; apply Nat.eqb_neq; lia).
        apply andb_false_r.
      - now rewrite Hl. }
  rewrite Hp.
  replace (Z.of_nat (kernel_size c) - 1 <? 0)%Z with false
    by (symmetry; apply Z.ltb_ge; lia).
  replace (Z.to_nat (Z.of_nat (kernel_size c) - 1)) with (kernel_size c - 1) by lia.
  replace (kernel_size c =? 0) with false by (symmetry; apply Nat.eqb_neq; lia).
  replace (l + 2 * (kernel_size c - 1) <? kernel_size c) with false
    by (symmetry; apply Nat.ltb_ge; lia).
  simpl orb. cbv iota.
  replace (l + 2 * (kernel_size c - 1) - kernel_size c + 1) with (l + kernel_size c - 1) by lia.
  f_equal.
  apply is_shape3_spec in Hw as Hw'. destruct Hw' as [Hwl _].
  rewrite (map2_index (A:=tensor2 T) (B:=T) _ [] s0 (out_channels c) (weight c) (bias c) Hwl Hb).
  apply map_ext_in. intros ch Hch. apply in_seq in Hch.
  apply map_ext_in. intros t Ht. apply in_seq in Ht.
  unfold Spec.filter_response. f_equal.
  apply cross_correlate_index with (l := l); auto; lia.
Qed.
End LayerFacts.

(** ** One convolution branch *)

Section BranchFacts.
Context {T : Type} {ST : Scalar T}.

Import Torch.

(** Pooling with the whole feature map as window leaves one value per map. *)
Lemma max_pool1d_full (k : nat) (y : tensor3 T) :
  1 <= k -> Forall (Forall (fun row => length row = k)) y ->
  max_pool1d y k = Ok (map (map (fun row => [maximum row])) y).
Proof.
  intros Hk Hy. unfold max_pool1d. rewrite Forall_forall in Hy.
  apply mapM_ok. intros s Hs. apply mapM_ok. intros row Hrow.
  specialize (Hy s Hs). rewrite Forall_forall in Hy. specialize (Hy row Hrow).
  unfold max_pool_row.
  replace (k =? 0) with false by (symmetry; apply Nat.eqb_neq; lia).
  replace (length row <? k) with false by (symmetry; apply Nat.ltb_ge; lia).
  simpl. rewrite chunks_whole by assumption. reflexivity.
Qed.

(** Reshaping (batch, n, 1) to (-1, n) drops the last axis. *)
Lemma view_pooled (n : nat) (z : tensor2 T) :
  1 <= n -> Forall (fun r => length r = n) z ->
  view n (map (map (fun v => [v])) z) = Ok z.
Proof.
  intros Hn Hz. unfold view, flatten3.
  rewrite map_map.
  rewrite (map_ext _ (fun r => r)) by (intros r; rewrite concat_map_singleton; apply map_id).
  rewrite map_id.
  replace (n =? 0) with false by (symmetry; apply Nat.eqb_neq; lia).
  rewrite (length_concat_uniform n z Hz), Nat.Div0.mod_mul. simpl.
  f_equal. apply chunks_concat; auto. nia.
Qed.

Variable rejects_empty : bool.

(** On a batch of sequences the convolution accepts, a branch of [forward]
    computes the summary vectors of the specification. *)
Lemma branch_spec (m : QAModel (T:=T)) (c : Conv1d (T:=T)) (b l : nat) (x : tensor3 T) :
  wf_conv c = true -> out_channels c = conv_channels m -> 1 <= conv_channels m ->
  convolvable rejects_empty (kernel_size c) l = true ->
  is_shape3 b (in_channels c) l x = true ->
  branch rejects_empty m c x = Ok (Spec.ConvolutionBranch c x).
Proof.
  intros Hc Hch Hout Hl Hx.
  destruct (wf_conv_spec _ Hc) as (Hin & Hk & _).
  assert (Hpos : 1 <= l + kernel_size c - 1)
    by (apply convolvable_spec in Hl; lia).
  apply is_shape3_spec in Hx. destruct Hx as [_ Hx]. rewrite Forall_forall in Hx.
  set (fmap := fun s : tensor2 T =>
                 map (fun ch => map (fun t => stanh (Spec.filter_response c s ch t))
                                    (seq 0 (l + kernel_size c - 1)))
                     (seq 0 (out_channels c))).
  assert (Hconv : Sequential_forward rejects_empty c x = Ok (map fmap x)).
  { unfold Sequential_forward, Conv1d_forward.
    rewrite (mapM_ok _ (fun s => map (fun ch => map (fun t => Spec.filter_response c s ch t)
                                                    (seq 0 (l + kernel_size c - 1)))
                                     (seq 0 (out_channels c)))).
    - simpl. unfold Tanh3, Tanh2. rewrite map_map. f_equal.
      apply map_ext. intros s. unfold fmap. rewrite map_map.
      apply map_ext. intros ch. now rewrite map_map.
    - intros s Hs. apply Conv1d_sample_spec; auto. }
  assert (Hrows : Forall (Forall (fun row => length row = l + kernel_size c - 1)) (map fmap x)).
  { apply Forall_forall. intros s Hs. apply in_map_iff in Hs. destruct Hs as (s' & <- & _).
    apply Forall_forall. intros row Hrow. unfold fmap in Hrow.
    apply in_map_iff in Hrow. destruct Hrow as (ch & <- & _).
    now rewrite length_map, length_seq. }
  assert (Hsize : x <> [] -> size2 (map fmap x) = l + kernel_size c - 1).
  { destruct x as [|s x']; [congruence|]. intros _. simpl. unfold fmap.
    destruct (out_channels c) as [|n]; [lia|]. simpl.
    now rewrite length_map, length_seq. }
  unfold branch. rewrite Hconv. simpl.
  assert (Hpool : max_pool1d (map fmap x) (size2 (map fmap x))
                  = Ok (map (map (fun row => [maximum row])) (map fmap x))).
  { destruct x as [|s x']; [reflexivity|].
    rewrite Hsize by congruence. apply max_pool1d_full; [exact Hpos | assumption]. }
  rewrite Hpool. simpl.
  rewrite (map_ext _ (fun s => map (fun v => [v]) (map maximum s)))
    by (intros s; now rewrite map_map).
  rewrite <- (map_map (map maximum) (map (fun v => [v]))).
  rewrite view_pooled.
  - f_equal. rewrite map_map. unfold Spec.ConvolutionBranch.
    apply map_ext_in. intros s Hs. unfold fmap. rewrite map_map.
    rewrite (seq_len_shape _ _ _ Hin (Hx s Hs)). reflexivity.
  - lia.
  - apply Forall_forall. intros r Hr. apply in_map_iff in Hr. destruct Hr as (s & <- & Hs).
    apply in_map_iff in Hs. destruct Hs as (s' & <- & _).
    unfold fmap. now rewrite !length_map, length_seq.
Qed.

Lemma ConvolutionBranch_shape (c : Conv1d (T:=T)) (x : tensor3 T) :
  is_shape2 (length x) (out_channels c) (Spec.ConvolutionBranch c x) = true.
Proof.
  apply is_shape2_spec. unfold Spec.ConvolutionBranch. rewrite length_map. split; auto.
  apply Forall_forall. intros r Hr. apply in_map_iff in Hr. destruct Hr as (s & <- & _).
  now rewrite length_map, length_seq.
Qed.
End BranchFacts.

(** ** Feature maps, rejected sequences *)

Section MoreBranchFacts.
Context {T : Type} {ST : Scalar T}.
Variable rejects_empty : bool.

Import Torch.

Lemma Sequential_forward_spec (c : Conv1d (T:=T)) (b l : nat) (x : tensor3 T) :
  wf_conv c = true -> convolvable rejects_empty (kernel_size c) l = true ->
  is_shape3 b (in_channels c) l x = true ->
  Sequential_forward rejects_empty c x = Ok (Spec.feature_maps c x).
Proof.
  intros Hc Hl Hx.
  destruct (wf_conv_spec _ Hc) as (Hin & _).
  apply is_shape3_spec in Hx. destruct Hx as [_ Hx]. rewrite Forall_forall in Hx.
  unfold Sequential_forward, Conv1d_forward.
  rewrite (mapM_ok _ (fun s => map (fun ch => map (fun t => Spec.filter_response c s ch t)
                                                  (seq 0 (l + kernel_size c - 1)))
                                   (seq 0 (out_channels c)))).
  - cbn [bind]. unfold Tanh3, Tanh2, Spec.feature_maps. rewrite map_map. f_equal.
    apply map_ext_in. intros s Hs. rewrite map_map.
    rewrite (seq_len_shape _ _ _ Hin (Hx s Hs)).
    apply map_ext. intros ch. now rewrite map_map.
  - intros s Hs. apply Conv1d_sample_spec; auto.
Qed.

Lemma feature_maps_shape (c : Conv1d (T:=T)) (b l : nat) (x : tensor3 T) :
  1 <= in_channels c -> is_shape3 b (in_channels c) l x = true ->
  is_shape3 b (out_channels c) (l + kernel_size c - 1) (Spec.feature_maps c x) = true.
Proof.
  intros Hin Hx. apply is_shape3_spec in Hx. destruct Hx as [Hb Hx].
  rewrite Forall_forall in Hx.
  apply is_shape3_spec. unfold Spec.feature_maps. rewrite length_map. split; auto.
  apply Forall_forall. intros y Hy. apply in_map_iff in Hy. destruct Hy as (s & <- & Hs).
  apply is_shape2_spec. rewrite length_map, length_seq. split; auto.
  apply Forall_forall. intros r Hr. apply in_map_iff in Hr. destruct Hr as (ch & <- & _).
  rewrite length_map, length_seq. now rewrite (seq_len_shape _ _ _ Hin (Hx s Hs)).
Qed.

(** A batch of sequences the layer does not accept makes the layer raise. *)
Lemma Sequential_forward_rejected (c : Conv1d (T:=T)) (b l : nat) (x : tensor3 T) :
  wf_conv c = true -> 1 <= b ->
  convolvable rejects_empty (kernel_size c) l = false ->
  is_shape3 b (in_channels c) l x = true ->
  Sequential_forward rejects_empty c x = Raise RuntimeError.
Proof.
  intros Hc Hb Hl Hx.
  destruct (wf_conv_spec _ Hc) as (Hin & Hk & Hp & _).
  unfold convolvable in Hl. apply orb_false_iff in Hl. destruct Hl as [Hl0 Hl1].
  apply Nat.leb_gt in Hl0. assert (l = 0) by lia. subst l.
  apply is_shape3_spec in Hx. destruct Hx as [Hxb Hx].
  destruct x as [|s x']; simpl in Hxb; [lia|].
  inversion Hx as [|? ? Hs _]; subst.
  assert (Hsl : seq_len s = 0) by (exact (seq_len_shape _ _ _ Hin Hs)).
  assert (Hxl : length s = in_channels c) by (apply is_shape2_spec in Hs; tauto).
  assert (Hraise : Conv1d_sample rejects_empty c s = Raise RuntimeError).
  { unfold Conv1d_sample. rewrite Hxl, Nat.eqb_refl, Hsl. simpl negb. cbv iota.
    replace (0 <? in_channels c) with true by (symmetry; apply Nat.ltb_lt; lia).
    destruct rejects_empty; [reflexivity|].
    cbn [negb andb] in Hl1 |- *.
    apply Nat.leb_gt in Hl1. assert (Hk1 : kernel_size c = 1) by lia.
    rewrite Hp, Hk1. reflexivity. }
  unfold Sequential_forward, Conv1d_forward.
  rewrite (mapM_raise_head _ _ _ _ Hraise). reflexivity.
Qed.

(** A batch of sequences the layer does not accept makes the branch raise. *)
Lemma branch_rejected (m : QAModel (T:=T)) (c : Conv1d (T:=T)) (b l : nat) (x : tensor3 T) :
  wf_conv c = true -> 1 <= b ->
  convolvable rejects_empty (kernel_size c) l = false ->
  is_shape3 b (in_channels c) l x = true ->
  branch rejects_empty m c x = Raise RuntimeError.
Proof.
  intros Hc Hb Hl Hx.
  destruct (wf_conv_spec _ Hc) as (Hin & Hk & Hp & _).
  unfold convolvable in Hl. apply orb_false_iff in Hl. destruct Hl as [Hl0 Hl1].
  apply Nat.leb_gt in Hl0. assert (l = 0) by lia. subst l.
  apply is_shape3_spec in Hx. destruct Hx as [Hxb Hx].
  destruct x as [|s x']; simpl in Hxb; [lia|].
  inversion Hx as [|? ? Hs _]; subst.
  assert (Hsl : seq_len s = 0) by (exact (seq_len_shape _ _ _ Hin Hs)).
  assert (Hxl : length s = in_channels c) by (apply is_shape2_spec in Hs; tauto).
  assert (Hraise : Conv1d_sample rejects_empty c s = Raise RuntimeError).
  { unfold Conv1d_sample. rewrite Hxl, Nat.eqb_refl, Hsl. simpl negb. cbv iota.
    replace (0 <? in_channels c) with true by (symmetry; apply Nat.ltb_lt; lia).
    destruct rejects_empty; [reflexivity|].
    cbn [negb andb] in Hl1 |- *.
    apply Nat.leb_gt in Hl1. assert (Hk1 : kernel_size c = 1) by lia.
    rewrite Hp, Hk1. reflexivity. }
  unfold branch, Sequential_forward, Conv1d_forward.
  rewrite (mapM_raise_head _ _ _ _ Hraise). reflexivity.
Qed.
End MoreBranchFacts.

(** ** The layers after the branches *)

Section HeadFacts.
Context {T : Type} {ST : Scalar T}.

Import Torch.

Lemma nth_map_seq0 {A : Type} (f : nat -> A) (n i : nat) (d : A) :
  i < n -> nth i (map f (seq 0 n)) d = f i.
Proof.
  intros H. rewrite (nth_indep _ d (f 0)) by (now rewrite length_map, length_seq).
  rewrite map_nth, seq_nth by assumption. reflexivity.
Qed.

Lemma cat1_two (q a : tensor2 T) :
  length a = length q -> cat1 [q; a] = Ok (map2 (@app T) q a).
Proof. intros H. unfold cat1. simpl. now rewrite H, Nat.eqb_refl. Qed.

Lemma cat1_three (q a e : tensor2 T) :
  length a = length q -> length e = length q ->
  cat1 [q; a; e] = Ok (map2 (@app T) (map2 (@app T) q a) e).
Proof. intros Ha He. unfold cat1. simpl. now rewrite Ha, He, Nat.eqb_refl. Qed.

Lemma affine_length (l : Linear (T:=T)) (v : list T) :
  length (Spec.affine l v) = out_features l.
Proof. unfold Spec.affine. now rewrite length_map, length_seq. Qed.

Lemma regularize_length (p : T) (tr : bool) (keep : nat -> bool) (h : list T) :
  length (Spec.regularize p tr keep h) = length h.
Proof. unfold Spec.regularize. destruct tr; auto. now rewrite length_map, length_seq. Qed.

Lemma Linear_row_spec (l : Linear (T:=T)) (row : list T) :
  wf_linear l = true -> length row = in_features l ->
  Linear_row l row = Ok (Spec.affine l row).
Proof.
  intros Hl Hrow. destruct (wf_linear_spec _ Hl) as [Hw Hb].
  apply is_shape2_spec in Hw. destruct Hw as [Hwl Hwr]. rewrite Forall_forall in Hwr.
  unfold Linear_row, Spec.affine. rewrite Hrow, Nat.eqb_refl. f_equal.
  rewrite (map2_index (A:=list T) (B:=T) _ [] s0 (out_features l) _ _ Hwl Hb).
  apply map_ext_in. intros j Hj. apply in_seq in Hj. f_equal.
  apply dot_index; auto. apply Hwr, nth_In. lia.
Qed.

Lemma Linear_forward_spec (l : Linear (T:=T)) (x : tensor2 T) :
  wf_linear l = true -> Forall (fun row => length row = in_features l) x ->
  Linear_forward l x = Ok (map (Spec.affine l) x).
Proof.
  intros Hl Hx. unfold Linear_forward. apply mapM_ok. intros row Hrow.
  rewrite Forall_forall in Hx. apply Linear_row_spec; auto.
Qed.

Lemma Dropout_forward_spec (p : T) (tr : bool) (keep : nat -> nat -> bool) (x : tensor2 T) :
  Dropout_forward p tr keep x
  = map (fun i => Spec.regularize p tr (keep i) (nth i x [])) (seq 0 (length x)).
Proof.
  unfold Dropout_forward, Spec.regularize. destruct tr.
  - unfold imap. rewrite (imap_from_index _ []). apply map_ext. intros i. simpl.
    now rewrite (imap_from_index _ s0).
  - rewrite <- (map_index (fun r => r) []). now rewrite map_id.
Qed.

Lemma LogSoftmax_row_spec (row : list T) : LogSoftmax_row row = Spec.log_softmax row.
Proof.
  unfold LogSoftmax_row, Spec.log_softmax, sum, Spec.bigsum.
  now rewrite (map_index (fun v => sexp (ssub v (maximum row))) s0 row).
Qed.
End HeadFacts.

(** ** The whole forward pass on well-shaped arguments *)

Section ForwardFacts.
Context {T : Type} {ST : Scalar T}.
Variable rejects_empty : bool.

Import Torch.

Lemma wf_model_spec (m : QAModel (T:=T)) :
  wf_model m = true ->
  wf_conv (conv_q m) = true /\ wf_conv (conv_a m) = true
  /\ 1 <= conv_channels m
  /\ out_channels (conv_q m) = conv_channels m
  /\ out_channels (conv_a m) = conv_channels m
  /\ wf_linear (combined_feature_vector m) = true
  /\ wf_linear (hidden m) = true
  /\ in_features (combined_feature_vector m) = 2 * conv_channels m + aux_width m
  /\ (no_ext_feats m = true -> aux_width m = 0)
  /\ in_features (hidden m) = out_features (combined_feature_vector m).
Proof.
  unfold wf_model, aux_width.
  rewrite !andb_true_iff, !Nat.leb_le, !Nat.eqb_eq.
  intros H. decompose [and] H. clear H.
  repeat split; auto; try lia.
  intros E.
  match goal with
  | Hno : (if no_ext_feats m then _ else _) = true |- _ =>
      rewrite E in Hno; now apply Nat.eqb_eq in Hno
  end.
Qed.

(** [forward] runs the question branch, then the answer branch, then the
    layers that join them. *)
Lemma forward_unfold (m : QAModel (T:=T)) (keep : nat -> nat -> bool)
      (q a : tensor3 T) (e : option (tensor2 T)) :
  forward rejects_empty m keep q a e
  = (qv <- branch rejects_empty m (conv_q m) q ;;
     av <- branch rejects_empty m (conv_a m) a ;;
     x <- (if no_ext_feats m then cat1 [qv; av]
           else match e with
                | Some e' => cat1 [qv; av; e']
                | None => Raise TypeError
                end) ;;
     x <- Linear_forward (combined_feature_vector m) x ;;
     x <- Linear_forward (hidden m)
            (Dropout_forward (dropout m) (training m) keep (Tanh2 x)) ;;
     Ok (LogSoftmax x)).
Proof.
  unfold forward, branch.
  destruct (Sequential_forward rejects_empty (conv_q m) q) as [y|]; cbn [bind]; auto.
  destruct (max_pool1d y (size2 y)) as [z|]; cbn [bind]; auto.
  destruct (view (conv_channels m) z) as [qv|]; cbn [bind]; auto.
  destruct (Sequential_forward rejects_empty (conv_a m) a) as [y'|]; cbn [bind]; auto.
  destruct (max_pool1d y' (size2 y')) as [z'|]; cbn [bind]; auto.
Qed.

(** [forward] ends with the log-softmax of [logits]. *)
Lemma forward_logits (m : QAModel (T:=T)) (keep : nat -> nat -> bool)
      (q a : tensor3 T) (e : option (tensor2 T)) :
  forward rejects_empty m keep q a e
  = (x <- logits rejects_empty m keep q a e ;; Ok (LogSoftmax x)).
Proof.
  rewrite forward_unfold. unfold logits.
  destruct (branch rejects_empty m (conv_q m) q); simpl; auto.
  destruct (branch rejects_empty m (conv_a m) a); simpl; auto.
  destruct (if no_ext_feats m then _ else _); simpl; auto.
  destruct (Linear_forward (combined_feature_vector m) _); simpl; auto.
Qed.

(** Projection, activation, dropout and classifier on joined rows [J 0],
    ..., [J (b-1)] of the width the projection layer expects. *)
Lemma head_spec (m : QAModel (T:=T)) (keep : nat -> nat -> bool)
      (J : nat -> list T) (b : nat) :
  wf_linear (combined_feature_vector m) = true ->
  wf_linear (hidden m) = true ->
  in_features (hidden m) = out_features (combined_feature_vector m) ->
  (forall i, i < b -> length (J i) = in_features (combined_feature_vector m)) ->
  (x <- Linear_forward (combined_feature_vector m) (map J (seq 0 b)) ;;
   Linear_forward (hidden m)
     (Dropout_forward (dropout m) (training m) keep (Tanh2 x)))
  = Ok (map (fun i =>
               Spec.affine (hidden m)
                 (Spec.regularize (dropout m) (training m) (keep i)
                    (map stanh (Spec.affine (combined_feature_vector m) (J i)))))
            (seq 0 b)).
Proof.
  intros Hl1 Hl2 Hh HJ.
  rewrite Linear_forward_spec; auto.
  2:{ apply Forall_forall. intros r Hr. apply in_map_iff in Hr.
      destruct Hr as (i & <- & Hi). apply in_seq in Hi. apply HJ. lia. }
  simpl. unfold Tanh2. rewrite !map_map.
  rewrite Dropout_forward_spec, length_map, length_seq.
  rewrite Linear_forward_spec; auto.
  - f_equal. rewrite map_map. apply map_ext_in. intros i Hi. apply in_seq in Hi.
    rewrite nth_map_seq0 by lia. reflexivity.
  - apply Forall_forall. intros r Hr. apply in_map_iff in Hr.
    destruct Hr as (i & <- & Hi).
    now rewrite regularize_length, (nth_map_seq0 _ b i) by (apply in_seq in Hi; lia);
      rewrite length_map, affine_length.
Qed.

Lemma nth_ConvolutionBranch_length (c : Conv1d (T:=T)) (x : tensor3 T) (i : nat) :
  i < length x -> length (nth i (Spec.ConvolutionBranch c x) []) = out_channels c.
Proof.
  intros Hi. pose proof (ConvolutionBranch_shape c x) as H.
  apply is_shape2_spec in H. destruct H as [Hlen Hrows]. rewrite Forall_forall in Hrows.
  apply Hrows, nth_In. lia.
Qed.

(** The class scores computed by [forward] are those of steps 1 to 7 of
    the specification. *)
Lemma logits_spec (m : QAModel (T:=T)) (keep : nat -> nat -> bool)
      (b lq la : nat) (q a : tensor3 T) (e : option (tensor2 T)) :
  wf_model m = true ->
  convolvable rejects_empty (kernel_size (conv_q m)) lq = true ->
  convolvable rejects_empty (kernel_size (conv_a m)) la = true ->
  is_shape3 b (in_channels (conv_q m)) lq q = true ->
  is_shape3 b (in_channels (conv_a m)) la a = true ->
  (no_ext_feats m = false ->
   exists e', e = Some e' /\ is_shape2 b (aux_width m) e' = true) ->
  logits rejects_empty m keep q a e = Ok (Spec.logits m keep q a e).
Proof.
  intros Hm Hlq Hla Hq Ha He.
  destruct (wf_model_spec _ Hm)
    as (Hcq & Hca & Hc & Hoq & Hoa & Hl1 & Hl2 & Hin & Hno & Hh).
  assert (Hqb : length q = b) by (apply is_shape3_spec in Hq; tauto).
  assert (Hab : length a = b) by (apply is_shape3_spec in Ha; tauto).
  unfold logits.
  rewrite (branch_spec rejects_empty m (conv_q m) b lq q) by auto.
  rewrite (branch_spec rejects_empty m (conv_a m) b la a) by auto.
  cbn [bind]. unfold Spec.logits.
  set (Q := Spec.ConvolutionBranch (conv_q m) q).
  set (A := Spec.ConvolutionBranch (conv_a m) a).
  assert (HQ : length Q = b) by (unfold Q, Spec.ConvolutionBranch; now rewrite length_map).
  assert (HA : length A = b) by (unfold A, Spec.ConvolutionBranch; now rewrite length_map).
  assert (HQi : forall i, i < b -> length (nth i Q []) = conv_channels m).
  { intros i Hi. unfold Q. rewrite nth_ConvolutionBranch_length; auto. lia. }
  assert (HAi : forall i, i < b -> length (nth i A []) = conv_channels m).
  { intros i Hi. unfold A. rewrite nth_ConvolutionBranch_length; auto. lia. }
  destruct (no_ext_feats m) eqn:Eno.
  - rewrite cat1_two by congruence. cbn [bind].
    rewrite (map2_index (@app T) [] [] b Q A HQ HA).
    rewrite Hqb. apply head_spec; auto.
    intros i Hi. rewrite length_app, HQi, HAi, Hin, Hno by auto. lia.
  - destruct (He eq_refl) as (e' & -> & He').
    apply is_shape2_spec in He'. destruct He' as [Heb Her]. rewrite Forall_forall in Her.
    rewrite cat1_three by congruence. cbn [bind].
    assert (Hqa : length (map2 (@app T) Q A) = b) by (rewrite map2_length; lia).
    rewrite (map2_index (@app T) [] [] b _ e' Hqa Heb).
    rewrite (map_ext_in _ (fun i => nth i Q [] ++ nth i A [] ++ nth i e' [])).
    + rewrite Hqb. apply head_spec; auto.
      intros i Hi.
      assert (Hei : length (nth i e' []) = aux_width m) by (apply Her, nth_In; lia).
      rewrite !length_app, HQi, HAi by auto. unfold Spec.aux_row. lia.
    + intros i Hi. apply in_seq in Hi.
      rewrite (map2_index (@app T) [] [] b Q A HQ HA), nth_map_seq0 by lia.
      now rewrite app_assoc.
Qed.

Lemma logits_valid (m : QAModel (T:=T)) (keep : nat -> nat -> bool)
      (b lq la : nat) (q a : tensor3 T) (e : option (tensor2 T)) :
  wf_model m = true -> valid_input m b lq la q a e = true ->
  logits rejects_empty m keep q a e = Ok (Spec.logits m keep q a e).
Proof.
  intros Hm Hv. unfold valid_input in Hv.
  rewrite !andb_true_iff, !Nat.leb_le in Hv.
  destruct Hv as ((((Hlq & Hla) & Hq) & Ha) & He).
  apply logits_spec with (b := b) (lq := lq) (la := la); auto.
  - apply convolvable_spec; auto.
  - apply convolvable_spec; auto.
  - intros Eno. rewrite Eno in He. destruct e as [e'|]; [eauto | discriminate].
Qed.

(** With [no_ext_feats] set, [forward] does not read [ext_feats]. *)
Lemma ext_feats_unused (m : QAModel (T:=T)) (keep : nat -> nat -> bool)
      (q a : tensor3 T) (e e' : option (tensor2 T)) :
  no_ext_feats m = true ->
  forward rejects_empty m keep q a e = forward rejects_empty m keep q a e'.
Proof. intros Hno. unfold forward. now rewrite Hno. Qed.
End ForwardFacts.

(** ** Models built by the constructor *)

Section InitFacts.
Context {T : Type} {ST : Scalar T}.

Import Torch.

Lemma tabulate_length {A : Type} (n : nat) (f : nat -> A) : length (tabulate n f) = n.
Proof. unfold tabulate. now rewrite length_map, length_seq. Qed.

Lemma tabulate_shape2 (n k : nat) (f : nat -> nat -> T) :
  is_shape2 n k (tabulate n (fun o => tabulate k (f o))) = true.
Proof.
  apply is_shape2_spec. split; [apply tabulate_length|].
  apply Forall_forall. intros r Hr. unfold tabulate in Hr at 1.
  apply in_map_iff in Hr. destruct Hr as (o & <- & _). apply tabulate_length.
Qed.

Lemma tabulate_shape3 (n c k : nat) (f : nat -> nat -> nat -> T) :
  is_shape3 n c k (tabulate n (fun o => tabulate c (fun i => tabulate k (f o i)))) = true.
Proof.
  apply is_shape3_spec. split; [apply tabulate_length|].
  apply Forall_forall. intros r Hr. unfold tabulate in Hr at 1.
  apply in_map_iff in Hr. destruct Hr as (o & <- & _). apply tabulate_shape2.
Qed.

Lemma wf_conv_init (cin cout k : nat) (w : nat -> nat -> nat -> T) (b : nat -> T) :
  1 <= cin -> 1 <= k ->
  wf_conv (Conv1d_init cin cout k (Z.of_nat k - 1) w b) = true.
Proof.
  intros Hcin Hk. unfold wf_conv, Conv1d_init.
  cbn [in_channels out_channels kernel_size padding weight bias].
  rewrite tabulate_shape3, tabulate_length, Nat.eqb_refl, Z.eqb_refl.
  apply Nat.leb_le in Hcin, Hk. now rewrite Hcin, Hk.
Qed.

Lemma wf_linear_init (n_in n_out : nat) (w : nat -> nat -> T) (b : nat -> T) :
  wf_linear (Linear_init n_in n_out w b) = true.
Proof.
  unfold wf_linear, Linear_init. cbn [in_features out_features lin_weight lin_bias].
  now rewrite tabulate_shape2, tabulate_length, Nat.eqb_refl.
Qed.

Lemma wf_model_init (input_n_dim filter_width conv_filters : nat) (no_ext : bool)
      (ext_feats_size n_classes : nat) (iv : InitialValues (T:=T)) :
  1 <= input_n_dim -> 1 <= filter_width -> 1 <= conv_filters ->
  wf_model (QAModel_init input_n_dim filter_width conv_filters no_ext
                         ext_feats_size n_classes iv) = true.
Proof.
  intros He Hw Hc. unfold wf_model, aux_width, QAModel_init.
  cbn [conv_q conv_a conv_channels combined_feature_vector hidden no_ext_feats].
  rewrite !wf_conv_init, !wf_linear_init by assumption.
  cbn [out_channels in_features out_features Conv1d_init Linear_init].
  rewrite !Nat.eqb_refl.
  replace (1 <=? conv_filters) with true by (symmetry; apply Nat.leb_le; lia).
  replace (2 * conv_filters <=? 2 * conv_filters + (if no_ext then 0 else ext_feats_size))
    with true by (symmetry; apply Nat.leb_le; lia).
  destruct no_ext; simpl; auto.
  replace (conv_filters + (conv_filters + 0) + 0 - (conv_filters + (conv_filters + 0)))
    with 0 by lia.
  reflexivity.
Qed.

Lemma wf_model_eval (m : QAModel (T:=T)) : wf_model (eval m) = wf_model m.
Proof. reflexivity. Qed.
End InitFacts.

(** ** Exceptions [forward] can raise *)

Section Exceptions.
Context {T : Type} {ST : Scalar T}.
Variable rejects_empty : bool.

Import Torch.

Lemma mapM_raise {A B : Type} (f : A -> result B) (l : list A) (e : string) :
  mapM f l = Raise e -> exists a, In a l /\ f a = Raise e.
Proof.
  induction l as [|a r IH]; simpl; [discriminate|].
  destruct (f a) eqn:Ea; simpl.
  - destruct (mapM f r); simpl; [discriminate|].
    intros E. destruct (IH E) as (a' & Hin & Ha'). eauto.
  - intros E. inversion E; subst. eauto.
Qed.

Lemma Conv1d_sample_raise (c : Conv1d (T:=T)) (x : tensor2 T) (e : string) :
  Conv1d_sample rejects_empty c x = Raise e -> e = RuntimeError.
Proof.
  unfold Conv1d_sample.
  repeat match goal with
         | |- context [if ?b then _ else _] => destruct b
         end; intros E; inversion E; reflexivity.
Qed.

Lemma Sequential_forward_raise (c : Conv1d (T:=T)) (x : tensor3 T) (e : string) :
  Sequential_forward rejects_empty c x = Raise e -> e = RuntimeError.
Proof.
  unfold Sequential_forward, Conv1d_forward.
  destruct (mapM (Conv1d_sample rejects_empty c) x) eqn:E; simpl; [discriminate|].
  intros E'; inversion E'; subst.
  apply mapM_raise in E. destruct E as (s & _ & Hs).
  eapply Conv1d_sample_raise; eauto.
Qed.

Lemma max_pool1d_raise (x : tensor3 T) (k : nat) (e : string) :
  max_pool1d x k = Raise e -> e = RuntimeError.
Proof.
  unfold max_pool1d. intros E.
  apply mapM_raise in E. destruct E as (s & _ & Hs).
  apply mapM_raise in Hs. destruct Hs as (row & _ & Hrow).
  unfold max_pool_row in Hrow.
  destruct (_ || _); inversion Hrow; reflexivity.
Qed.

Lemma view_raise (n : nat) (x : tensor3 T) (e : string) :
  view n x = Raise e -> e = RuntimeError.
Proof.
  unfold view. destruct (n =? 0); [intros E; inversion E; reflexivity|].
  destruct (negb _); intros E; inversion E; reflexivity.
Qed.

Lemma cat1_raise (ts : list (tensor2 T)) (e : string) :
  cat1 ts = Raise e -> e = RuntimeError.
Proof.
  unfold cat1. destruct ts as [|t rest]; [intros E; inversion E; reflexivity|].
  simpl. destruct (forallb (fun u => length u =? length t) rest);
    intros E; inversion E; reflexivity.
Qed.

Lemma Linear_forward_raise (l : Linear (T:=T)) (x : tensor2 T) (e : string) :
  Linear_forward l x = Raise e -> e = RuntimeError.
Proof.
  unfold Linear_forward. intros E.
  apply mapM_raise in E. destruct E as (row & _ & Hrow).
  unfold Linear_row in Hrow. destruct (_ =? _); inversion Hrow; reflexivity.
Qed.

Lemma branch_raise (m : QAModel (T:=T)) (c : Conv1d (T:=T)) (x : tensor3 T) (e : string) :
  branch rejects_empty m c x = Raise e -> e = RuntimeError.
Proof.
  unfold branch.
  destruct (Sequential_forward rejects_empty c x) as [y|e1] eqn:E1; simpl.
  - destruct (max_pool1d y (size2 y)) as [z|e2] eqn:E2; simpl.
    + apply view_raise.
    + intros E; inversion E; subst. eapply max_pool1d_raise; eauto.
  - intros E; inversion E; subst. eapply Sequential_forward_raise; eauto.
Qed.

(** Whatever the arguments, an exception that leaves [forward] is one of
    PyTorch's: a [RuntimeError] of a layer, or the [TypeError] of
    [torch.cat] on [None]. *)
Lemma forward_raise (m : QAModel (T:=T)) (keep : nat -> nat -> bool)
      (q a : tensor3 T) (ext : option (tensor2 T)) (e : string) :
  forward rejects_empty m keep q a ext = Raise e ->
  e = RuntimeError \/ e = TypeError.
Proof.
  rewrite forward_unfold.
  destruct (branch rejects_empty m (conv_q m) q) as [qv|e1] eqn:E1; cbn [bind].
  2:{ intros E; inversion E; subst. left. eapply branch_raise; eauto. }
  destruct (branch rejects_empty m (conv_a m) a) as [av|e2] eqn:E2; cbn [bind].
  2:{ intros E; inversion E; subst. left. eapply branch_raise; eauto. }
  destruct (if no_ext_feats m then _ else _) as [x|e3] eqn:E3; cbn [bind].
  2:{ intros E; inversion E; subst.
      destruct (no_ext_feats m); [left; eapply cat1_raise; eauto|].
      destruct ext; [left; eapply cat1_raise; eauto|].
      inversion E3. now right. }
  destruct (Linear_forward (combined_feature_vector m) x) as [y|e4] eqn:E4; cbn [bind].
  2:{ intros E; inversion E; subst. left. eapply Linear_forward_raise; eauto. }
  destruct (Linear_forward (hidden m) _) as [z|e5] eqn:E5; cbn [bind]; [discriminate|].
  intros E; inversion E; subst. left. eapply Linear_forward_raise; eauto.
Qed.
End Exceptions.

(** ** Real analysis: [tanh] and the log-softmax *)

Section RealFacts.
Import Torch.
Local Open Scope R_scope.

Lemma tanh_bounds (x : R) : -1 < tanh x < 1.
Proof.
  pose proof (exp_pos x) as Ha. pose proof (exp_pos (- x)) as Hb.
  assert (Hs : 0 < exp x + exp (- x)) by lra.
  assert (E1 : tanh x = 1 - 2 * exp (- x) / (exp x + exp (- x)))
    by (unfold tanh, sinh, cosh; field; lra).
  assert (E2 : tanh x = -1 + 2 * exp x / (exp x + exp (- x)))
    by (unfold tanh, sinh, cosh; field; lra).
  assert (H1 : 0 < 2 * exp (- x) / (exp x + exp (- x)))
    by (apply Rdiv_lt_0_compat; lra).
  assert (H2 : 0 < 2 * exp x / (exp x + exp (- x)))
    by (apply Rdiv_lt_0_compat; lra).
  split; lra.
Qed.

(** The maximum of a non-empty list is one of its elements. *)
Lemma fold_left_Rmax_closed (P : R -> Prop) (r : list R) :
  forall x, P x -> Forall P r -> P (fold_left Rmax r x).
Proof.
  induction r as [|y r IH]; intros x Hx Hr; simpl; auto.
  inversion Hr; subst. apply IH; auto. now apply Rmax_case.
Qed.

Lemma maximum_closed (P : R -> Prop) (l : list R) :
  l <> [] -> Forall P l -> P (maximum l).
Proof.
  destruct l as [|x r]; [congruence|]. intros _ H. inversion H; subst.
  simpl. now apply fold_left_Rmax_closed.
Qed.

Lemma sum_exp_pos (row : list R) : row <> [] -> 0 < sum (map exp row).
Proof.
  assert (H : forall r, 0 <= sum (map exp r)).
  { induction r as [|w r IH]; [apply Rle_refl|].
    change (0 <= exp w + sum (map exp r)). pose proof (exp_pos w). lra. }
  destruct row as [|v r]; [congruence|]. intros _.
  change (0 < exp v + sum (map exp r)).
  pose proof (exp_pos v). specialize (H r). lra.
Qed.

Lemma sum_exp_shift (m : R) (row : list R) :
  sum (map (fun v => exp (v - m)) row) = exp (- m) * sum (map exp row).
Proof.
  induction row as [|v r IH].
  - change (0 = exp (- m) * 0). lra.
  - change (exp (v - m) + sum (map (fun v => exp (v - m)) r)
            = exp (- m) * (exp v + sum (map exp r))).
    rewrite IH. unfold Rminus. rewrite exp_plus. lra.
Qed.

Lemma sum_scale (k : R) (f : R -> R) (row : list R) :
  sum (map (fun v => f v * k) row) = sum (map f row) * k.
Proof.
  induction row as [|v r IH].
  - change (0 = 0 * k). lra.
  - change (f v * k + sum (map (fun v => f v * k) r) = (f v + sum (map f r)) * k).
    rewrite IH. lra.
Qed.

(** Subtracting the maximum before exponentiating does not change the
    value of the log-softmax. *)
Lemma LogSoftmax_row_plain (row : list R) :
  LogSoftmax_row row = map (fun v => v - ln (sum (map exp row))) row.
Proof.
  unfold LogSoftmax_row. apply map_ext_in. intros v Hv.
  assert (Hne : row <> []) by (intros ->; inversion Hv).
  pose proof (sum_exp_pos row Hne) as Hpos.
  change (@ssub R Scalar_R) with Rminus. change (@slog R Scalar_R) with ln.
  change (@sexp R Scalar_R) with exp.
  rewrite sum_exp_shift, ln_mult, ln_exp by (auto using exp_pos). lra.
Qed.

Lemma exp_log_softmax_sum (row : list R) :
  row <> [] ->
  sum (map exp (map (fun v => v - ln (sum (map exp row))) row)) = 1.
Proof.
  intros Hne. pose proof (sum_exp_pos row Hne) as Hpos.
  rewrite map_map.
  rewrite (map_ext _ (fun v => exp v * / sum (map exp row))).
  - rewrite sum_scale. field. lra.
  - intros v. unfold Rminus. rewrite exp_plus, exp_Ropp, exp_ln by assumption.
    reflexivity.
Qed.
End RealFacts.

(** * The claims *)

Section StructuralClaims.
Context {T : Type} {ST : Scalar T}.
Variable rejects_empty : bool.

Import Torch.

(** C1: on a well-formed model and a valid batch, [forward] returns the
    value obtained by these steps in this order: each of the question and
    the answer is convolved and max-pooled on its own into a summary vector
    per pair; the two summaries (and the auxiliary features when the model
    uses them) are concatenated along the feature axis; the result is
    affinely projected, passed through tanh element-wise, through the
    dropout step, affinely projected to the class scores, and normalised by
    log-softmax. *)
Theorem forward_computes_score (m : QAModel (T:=T)) (keep : nat -> nat -> bool)
        (b lq la : nat) (q a : tensor3 T) (e : option (tensor2 T)) :
  wf_model m = true -> valid_input m b lq la q a e = true ->
  forward rejects_empty m keep q a e
  = Ok (map (fun i =>
               let q_vec := nth i (Spec.ConvolutionBranch (conv_q m) q) [] in
               let a_vec := nth i (Spec.ConvolutionBranch (conv_a m) a) [] in
               let joined :=
                 if no_ext_feats m then q_vec ++ a_vec
                 else q_vec ++ a_vec ++ Spec.aux_row e i in
               let projected := Spec.affine (combined_feature_vector m) joined in
               let activated := map stanh projected in
               let dropped :=
                 Spec.regularize (dropout m) (training m) (keep i) activated in
               let class_scores := Spec.affine (hidden m) dropped in
               Spec.log_softmax class_scores)
            (seq 0 b)).
Proof.
  intros Hm Hv.
  rewrite forward_logits, (logits_valid rejects_empty m keep b lq la q a e Hm Hv).
  cbn [bind]. f_equal.
  unfold LogSoftmax, Spec.logits. rewrite map_map.
  assert (Hb : length q = b).
  { unfold valid_input in Hv. rewrite !andb_true_iff in Hv.
    destruct Hv as ((((_ & _) & Hq) & _) & _).
    apply is_shape3_spec in Hq. tauto. }
  rewrite Hb. apply map_ext. intros i. apply LogSoftmax_row_spec.
Qed.


(** C4: for every batch size, every filter width and every sequence length
    [L >= 1], a convolution branch followed by pooling over the whole
    feature map and the reshape returns a tensor of shape
    (batch, conv_channels). *)
Theorem branch_output_shape (m : QAModel (T:=T)) (c : Conv1d (T:=T))
        (B L : nat) (x : tensor3 T) :
  wf_conv c = true -> out_channels c = conv_channels m -> 1 <= conv_channels m ->
  1 <= L -> is_shape3 B (in_channels c) L x = true ->
  exists v, branch rejects_empty m c x = Ok v
            /\ is_shape2 B (conv_channels m) v = true.
Proof.
  intros Hc Ho HC HL Hx. exists (Spec.ConvolutionBranch c x). split.
  - apply branch_spec with (b := B) (l := L); auto.
    apply convolvable_spec. now left.
  - assert (Hb : length x = B) by (apply is_shape3_spec in Hx; tauto).
    rewrite <- Hb, <- Ho. apply ConvolutionBranch_shape.
Qed.

(** C5: the constructor gives the projection layer the output width
    [2 * conv_filters + (0 if no_ext_feats else ext_feats_size)], which is
    also its input width and the input width of the classifier layer; no
    argument of the constructor sets it. *)
Theorem hidden_width_formula (input_n_dim W C : nat) (no_ext : bool) (F N : nat)
        (iv : InitialValues (T:=T)) :
  let m := QAModel_init input_n_dim W C no_ext F N iv in
  let n_hidden := 2 * C + (if no_ext then 0 else F) in
  out_features (combined_feature_vector m) = n_hidden
  /\ in_features (combined_feature_vector m) = n_hidden
  /\ is_shape2 n_hidden n_hidden (lin_weight (combined_feature_vector m)) = true
  /\ in_features (hidden m) = n_hidden
  /\ is_shape2 N n_hidden (lin_weight (hidden m)) = true.
Proof.
  cbv zeta. repeat split; try reflexivity; apply tabulate_shape2.
Qed.

(** C6: in inference mode the dropout step returns its argument unchanged,
    and the output of [forward] does not depend on the random draws: two
    calls with the same arguments and parameters return the same value. *)
Theorem dropout_identity_in_eval (m : QAModel (T:=T)) (keep keep' : nat -> nat -> bool)
        (q a : tensor3 T) (e : option (tensor2 T)) :
  training m = false ->
  (forall x, Dropout_forward (dropout m) (training m) keep x = x)
  /\ forward rejects_empty m keep q a e = forward rejects_empty m keep' q a e.
Proof.
  intros Htr. split.
  - intros x. now rewrite Htr.
  - unfold forward, Dropout_forward. now rewrite Htr.
Qed.

(** C9: with [no_ext_feats = True] the argument [ext_feats] of [forward]
    is still a parameter of the call, but the result does not depend on it. *)
Theorem ext_feats_ignored_when_disabled (m : QAModel (T:=T)) (keep : nat -> nat -> bool)
        (q a : tensor3 T) (e1 e2 : option (tensor2 T)) :
  no_ext_feats m = true ->
  forward rejects_empty m keep q a e1 = forward rejects_empty m keep q a e2.
Proof.
  intros Hno. unfold forward. now rewrite Hno.
Qed.
End StructuralClaims.

Section ErrorClaims.
Context {T : Type} {ST : Scalar T}.
Variable rejects_empty : bool.

Import Torch.

(** The outcome of [forward] on a batch of at least one pair whose
    auxiliary features are as the model expects, for any sequence lengths. *)
Lemma forward_any_length (m : QAModel (T:=T)) (keep : nat -> nat -> bool)
      (b lq la : nat) (q a : tensor3 T) (e : option (tensor2 T)) :
  wf_model m = true -> 1 <= b ->
  is_shape3 b (in_channels (conv_q m)) lq q = true ->
  is_shape3 b (in_channels (conv_a m)) la a = true ->
  (no_ext_feats m = false ->
   exists e', e = Some e' /\ is_shape2 b (aux_width m) e' = true) ->
  forward rejects_empty m keep q a e
  = if convolvable rejects_empty (kernel_size (conv_q m)) lq
       && convolvable rejects_empty (kernel_size (conv_a m)) la
    then Ok (Spec.score m keep q a e)
    else Raise RuntimeError.
Proof.
  intros Hm Hb Hq Ha He.
  destruct (wf_model_spec _ Hm) as (Hcq & Hca & Hc & Hoq & Hoa & _).
  destruct (convolvable rejects_empty (kernel_size (conv_q m)) lq) eqn:Eq.
  - destruct (convolvable rejects_empty (kernel_size (conv_a m)) la) eqn:Ea.
    + rewrite forward_logits.
      rewrite (logits_spec rejects_empty m keep b lq la q a e) by auto.
      cbn [bind andb]. f_equal. unfold LogSoftmax, Spec.score.
      apply map_ext. apply LogSoftmax_row_spec.
    + rewrite forward_unfold.
      rewrite (branch_spec rejects_empty m (conv_q m) b lq q) by auto.
      rewrite (branch_rejected rejects_empty m (conv_a m) b la a) by auto.
      reflexivity.
  - rewrite forward_unfold.
    rewrite (branch_rejected rejects_empty m (conv_q m) b lq q) by auto.
    reflexivity.
Qed.

(** C8, as the code has it: [forward] makes no check of the sequence length
    and never raises [InvalidInputError].  A question or answer without any
    token (in a batch of at least one pair) is handed to the convolution
    layer like any other, PyTorch's convolution refuses it, and the layer's
    [RuntimeError] is what leaves [forward], whatever [ext_feats] is: no
    score is returned and no pooling takes place. *)
Theorem empty_sequence_handling (m : QAModel (T:=T)) (keep : nat -> nat -> bool)
        (b lq la : nat) (q a : tensor3 T) (e : option (tensor2 T)) :
  wf_model m = true -> 1 <= b -> lq = 0 \/ la = 0 ->
  is_shape3 b (in_channels (conv_q m)) lq q = true ->
  is_shape3 b (in_channels (conv_a m)) la a = true ->
  forward true m keep q a e = Raise RuntimeError
  /\ forward true m keep q a e <> Raise "InvalidInputError"%string
  /\ (lq = 0 -> Sequential_forward true (conv_q m) q = Raise RuntimeError)
  /\ (la = 0 -> Sequential_forward true (conv_a m) a = Raise RuntimeError).
Proof.
  intros Hm Hb H0 Hq Ha.
  destruct (wf_model_spec _ Hm) as (Hcq & Hca & Hc & Hoq & Hoa & _).
  assert (Hrej : forall k, convolvable true k 0 = false) by reflexivity.
  assert (HF : forward true m keep q a e = Raise RuntimeError).
  { rewrite forward_unfold.
    destruct (Nat.eq_dec lq 0) as [-> | Hlq].
    - rewrite (branch_rejected true m (conv_q m) b 0 q) by auto. reflexivity.
    - assert (la = 0) by lia. subst la.
      rewrite (branch_spec true m (conv_q m) b lq q)
        by (auto; apply convolvable_spec; left; lia).
      rewrite (branch_rejected true m (conv_a m) b 0 a) by auto. reflexivity. }
  split; [exact HF|]. split; [rewrite HF; discriminate|]. split.
  - intros ->. apply Sequential_forward_rejected with (b := b) (l := 0); auto.
  - intros ->. apply Sequential_forward_rejected with (b := b) (l := 0); auto.
Qed.

(** C7, as the code has it: [forward] makes no check of [ext_feats] against
    the configuration and never raises [ConfigurationError]; [ext_feats] is
    first looked at when the branch outputs are concatenated, after both
    convolution branches have run: an exception of the question branch, or
    of the answer branch once the question branch has returned, is what
    [forward] raises, whatever [ext_feats] is.  On a valid batch of questions and
    answers, a model without auxiliary features accepts and ignores whatever
    is passed; a model with auxiliary features raises [TypeError] when
    [None] is passed and [RuntimeError] when the features have another width
    than the projection layer expects. *)
Theorem ext_feats_handling (m : QAModel (T:=T)) (keep : nat -> nat -> bool)
        (b lq la : nat) (q a : tensor3 T) :
  wf_model m = true -> 1 <= b -> 1 <= lq -> 1 <= la ->
  is_shape3 b (in_channels (conv_q m)) lq q = true ->
  is_shape3 b (in_channels (conv_a m)) la a = true ->
  (forall e, forward rejects_empty m keep q a e <> Raise "ConfigurationError"%string)
  /\ (forall q' a' e exc,
        branch rejects_empty m (conv_q m) q' = Raise exc ->
        forward rejects_empty m keep q' a' e = Raise exc)
  /\ (forall q' a' e exc q_vec,
        branch rejects_empty m (conv_q m) q' = Ok q_vec ->
        branch rejects_empty m (conv_a m) a' = Raise exc ->
        forward rejects_empty m keep q' a' e = Raise exc)
  /\ (if no_ext_feats m
      then forall e, forward rejects_empty m keep q a e = Ok (Spec.score m keep q a None)
      else forward rejects_empty m keep q a None = Raise TypeError
           /\ forall w e, is_shape2 b w e = true -> w <> aux_width m ->
                forward rejects_empty m keep q a (Some e) = Raise RuntimeError).
Proof.
  intros Hm Hb Hlq Hla Hq Ha.
  destruct (wf_model_spec _ Hm)
    as (Hcq & Hca & Hc & Hoq & Hoa & Hl1 & Hl2 & Hin & Hno & Hh).
  assert (Hcvq : convolvable rejects_empty (kernel_size (conv_q m)) lq = true)
    by (apply convolvable_spec; now left).
  assert (Hcva : convolvable rejects_empty (kernel_size (conv_a m)) la = true)
    by (apply convolvable_spec; now left).
  split; [| split; [| split]].
  - intros e E. apply forward_raise in E. destruct E as [E | E]; discriminate E.
  - intros q' a' e exc E. rewrite forward_unfold. now rewrite E.
  - intros q' a' e exc q_vec Eq Ea. rewrite forward_unfold. now rewrite Eq, Ea.
  - destruct (no_ext_feats m) eqn:Eno.
    + intros e.
      rewrite (ext_feats_unused rejects_empty m keep q a e None Eno).
      rewrite (forward_any_length m keep b lq la q a None); auto.
      * now rewrite Hcvq, Hcva.
      * congruence.
    + assert (Hqb : length q = b) by (apply is_shape3_spec in Hq; tauto).
      assert (Hab : length a = b) by (apply is_shape3_spec in Ha; tauto).
      split.
      { rewrite forward_unfold.
        rewrite (branch_spec rejects_empty m (conv_q m) b lq q) by auto.
        rewrite (branch_spec rejects_empty m (conv_a m) b la a) by auto.
        now rewrite Eno. }
      intros w e Hw Hne. rewrite forward_unfold.
      rewrite (branch_spec rejects_empty m (conv_q m) b lq q) by auto.
      rewrite (branch_spec rejects_empty m (conv_a m) b la a) by auto.
      rewrite Eno. cbn [bind].
      apply is_shape2_spec in Hw. destruct Hw as [Heb Her].
      remember (Spec.ConvolutionBranch (conv_q m) q) as Q eqn:EQ.
      remember (Spec.ConvolutionBranch (conv_a m) a) as A eqn:EA.
      assert (HQ : length Q = b)
        by (rewrite EQ; unfold Spec.ConvolutionBranch; now rewrite length_map).
      assert (HA : length A = b)
        by (rewrite EA; unfold Spec.ConvolutionBranch; now rewrite length_map).
      rewrite cat1_three by congruence. cbn [bind].
      destruct Q as [|q0 Q']; [simpl in HQ; lia|].
      destruct A as [|a0 A']; [simpl in HA; lia|].
      destruct e as [|e0 e']; [simpl in Heb; lia|].
      assert (Hq0 : length q0 = conv_channels m).
      { pose proof (nth_ConvolutionBranch_length (conv_q m) q 0) as H0.
        rewrite <- EQ in H0. simpl in H0. rewrite H0; lia. }
      assert (Ha0 : length a0 = conv_channels m).
      { pose proof (nth_ConvolutionBranch_length (conv_a m) a 0) as H0.
        rewrite <- EA in H0. simpl in H0. rewrite H0; lia. }
      inversion Her as [|? ? He0 _]; subst.
      cbn [map2]. unfold Linear_forward.
      rewrite (mapM_raise_head _ _ _ RuntimeError); [reflexivity|].
      unfold Linear_row. rewrite !length_app, Hq0, Ha0, Hin.
      replace (_ =? _) with false; [reflexivity|].
      symmetry. apply Nat.eqb_neq. lia.
Qed.
End ErrorClaims.

Section NumericClaims.
Variable rejects_empty : bool.

Import Torch.
Local Open Scope R_scope.

(** C2: for every valid batch (and at least one class), [forward] returns
    the log-softmax [logit_i - ln (sum_j (exp logit_j))] of the class scores
    computed by the classifier layer, and the exponentials of each row of
    the result sum to 1. *)
Theorem score_rows_exponentiate_to_one (m : QAModel (T:=R)) (keep : nat -> nat -> bool)
        (b lq la : nat) (q a : tensor3 R) (e : option (tensor2 R)) :
  wf_model m = true -> valid_input m b lq la q a e = true ->
  (1 <= out_features (hidden m))%nat ->
  exists class_scores out,
    logits rejects_empty m keep q a e = Ok class_scores
    /\ forward rejects_empty m keep q a e = Ok out
    /\ out = map (fun row => map (fun v => v - ln (sum (map exp row))) row) class_scores
    /\ Forall (fun row => sum (map exp row) = 1) out.
Proof.
  intros Hm Hv Hn.
  exists (Spec.logits m keep q a e).
  exists (map (fun row => map (fun v => v - ln (sum (map exp row))) row)
              (Spec.logits m keep q a e)).
  pose proof (logits_valid rejects_empty m keep b lq la q a e Hm Hv) as Hl.
  split; [exact Hl|]. split; [|split; [reflexivity|]].
  - rewrite forward_logits, Hl. cbn [bind]. f_equal. unfold LogSoftmax.
    apply map_ext. apply LogSoftmax_row_plain.
  - apply Forall_forall. intros row Hrow.
    apply in_map_iff in Hrow. destruct Hrow as (z & <- & Hz).
    apply exp_log_softmax_sum.
    unfold Spec.logits in Hz. apply in_map_iff in Hz. destruct Hz as (i & <- & _).
    intros E. apply (f_equal (@length R)) in E.
    rewrite affine_length in E. simpl in E. lia.
Qed.

Lemma ConvolutionBranch_bounds (c : Conv1d (T:=R)) (x : tensor3 R) :
  (forall s, In s x -> (1 <= seq_len s + kernel_size c - 1)%nat) ->
  Forall (Forall (fun v => -1 < v < 1)) (Spec.ConvolutionBranch c x).
Proof.
  intros Hx. apply Forall_forall. intros r Hr.
  unfold Spec.ConvolutionBranch in Hr. apply in_map_iff in Hr.
  destruct Hr as (s & <- & Hs). specialize (Hx s Hs).
  apply Forall_forall. intros v Hv. apply in_map_iff in Hv.
  destruct Hv as (ch & <- & _).
  apply maximum_closed.
  - destruct (seq_len s + kernel_size c - 1)%nat; [lia | discriminate].
  - apply Forall_forall. intros y Hy. apply in_map_iff in Hy.
    destruct Hy as (t & <- & _). apply tanh_bounds.
Qed.

(** In exact real arithmetic the bounds of the summary vectors are strict:
    for question and answer sequences of at least one position, every
    element of [q] and [a] lies strictly between -1 and 1. *)
Lemma summary_vector_bounds_exact (m : QAModel (T:=R)) (b lq la : nat) (q a : tensor3 R) :
  wf_model m = true -> (1 <= lq)%nat -> (1 <= la)%nat ->
  is_shape3 b (in_channels (conv_q m)) lq q = true ->
  is_shape3 b (in_channels (conv_a m)) la a = true ->
  exists q_vec a_vec,
    branch rejects_empty m (conv_q m) q = Ok q_vec
    /\ branch rejects_empty m (conv_a m) a = Ok a_vec
    /\ Forall (Forall (fun v => -1 < v < 1)) q_vec
    /\ Forall (Forall (fun v => -1 < v < 1)) a_vec.
Proof.
  intros Hm Hlq Hla Hq Ha.
  destruct (wf_model_spec _ Hm) as (Hcq & Hca & Hc & Hoq & Hoa & _).
  destruct (wf_conv_spec _ Hcq) as (Hiq & Hkq & _).
  destruct (wf_conv_spec _ Hca) as (Hia & Hka & _).
  exists (Spec.ConvolutionBranch (conv_q m) q), (Spec.ConvolutionBranch (conv_a m) a).
  repeat split.
  - apply branch_spec with (b := b) (l := lq); auto. apply convolvable_spec. now left.
  - apply branch_spec with (b := b) (l := la); auto. apply convolvable_spec. now left.
  - apply ConvolutionBranch_bounds. intros s Hs.
    apply is_shape3_spec in Hq. destruct Hq as [_ Hq]. rewrite Forall_forall in Hq.
    rewrite (seq_len_shape _ _ _ Hiq (Hq s Hs)). lia.
  - apply ConvolutionBranch_bounds. intros s Hs.
    apply is_shape3_spec in Ha. destruct Ha as [_ Ha]. rewrite Forall_forall in Ha.
    rewrite (seq_len_shape _ _ _ Hia (Ha s Hs)). lia.
Qed.
End NumericClaims.

(** * Binary32 arithmetic *)

Section Binary32Facts.
Local Open Scope R_scope.

Lemma rne_IZR (m : Z) : rne (IZR m) = m.
Proof.
  unfold rne. rewrite ZfloorZ.
  destruct (Rlt_dec (IZR m - IZR m) (1 / 2)); [reflexivity | lra].
Qed.

Lemma rne_floor_or_succ (z : R) : rne z = Zfloor z \/ rne z = (Zfloor z + 1)%Z.
Proof.
  unfold rne. destruct (Rlt_dec _ _); auto. destruct (Rlt_dec _ _); auto.
  destruct (Z.even _); auto.
Qed.

Lemma rne_upper (z : R) (n : Z) : z <= IZR n -> (rne z <= n)%Z.
Proof.
  intros H. destruct (Req_dec z (IZR n)) as [-> | Hne].
  - rewrite rne_IZR. lia.
  - assert (Hf : (Zfloor z < n)%Z).
    { apply lt_IZR. pose proof (Zfloor_bound z). lra. }
    destruct (rne_floor_or_succ z) as [-> | ->]; lia.
Qed.

Lemma rne_lower (z : R) (n : Z) : IZR n <= z -> (n <= rne z)%Z.
Proof.
  intros H. pose proof (Zfloor_lub n z H).
  destruct (rne_floor_or_succ z) as [-> | ->]; lia.
Qed.

Lemma ln_2_pos : 0 < ln 2.
Proof. pose proof ln_lt_2. lra. Qed.

Lemma pow2_exp (k : Z) : powerRZ 2 k = exp (IZR k * ln 2).
Proof. rewrite powerRZ_Rpower by lra. reflexivity. Qed.

Lemma pow2_le (j k : Z) : (j <= k)%Z -> powerRZ 2 j <= powerRZ 2 k.
Proof.
  intros H. rewrite !pow2_exp.
  apply IZR_le in H. pose proof ln_2_pos.
  destruct (Req_dec (IZR j) (IZR k)) as [-> | Hne]; [apply Rle_refl|].
  left. apply exp_increasing. nra.
Qed.

Lemma pow2_pos (k : Z) : 0 < powerRZ 2 k.
Proof. apply powerRZ_lt. lra. Qed.

Lemma exponent_bounds (x : R) :
  x <> 0 -> powerRZ 2 (exponent x) <= Rabs x < powerRZ 2 (exponent x + 1).
Proof.
  intros Hx. pose proof (Rabs_pos_lt x Hx) as Habs. pose proof ln_2_pos as H2.
  unfold exponent. pose proof (Zfloor_bound (ln (Rabs x) / ln 2)) as [Hlo Hhi].
  set (e := Zfloor (ln (Rabs x) / ln 2)) in *.
  assert (Hlo' : IZR e * ln 2 <= ln (Rabs x)).
  { apply (Rmult_le_compat_r (ln 2)) in Hlo; [|lra].
    unfold Rdiv in Hlo. rewrite Rmult_assoc, Rinv_l, Rmult_1_r in Hlo by lra. exact Hlo. }
  assert (Hhi' : ln (Rabs x) < (IZR e + 1) * ln 2).
  { apply (Rmult_lt_compat_r (ln 2)) in Hhi; [|lra].
    unfold Rdiv in Hhi. rewrite Rmult_assoc, Rinv_l, Rmult_1_r in Hhi by lra. exact Hhi. }
  rewrite !pow2_exp, plus_IZR. pose proof (exp_ln (Rabs x) Habs) as Hexp.
  split.
  - rewrite <- Hexp.
    destruct Hlo' as [Hlt | Heq]; [left; now apply exp_increasing | rewrite Heq; apply Rle_refl].
  - rewrite <- Hexp. now apply exp_increasing.
Qed.

Lemma exponent_eq (x : R) (k : Z) :
  powerRZ 2 k <= Rabs x < powerRZ 2 (k + 1) -> exponent x = k.
Proof.
  intros [Hlo Hhi]. pose proof ln_2_pos as H2.
  assert (Habs : 0 < Rabs x) by (pose proof (pow2_pos k); lra).
  unfold exponent. apply Zfloor_eq.
  rewrite !pow2_exp, plus_IZR in *.
  rewrite <- (exp_ln (Rabs x) Habs) in Hlo, Hhi.
  assert (Hlo' : IZR k * ln 2 <= ln (Rabs x)).
  { destruct (Rle_or_lt (IZR k * ln 2) (ln (Rabs x))) as [H | H]; [exact H|].
    apply exp_increasing in H. lra. }
  assert (Hhi' : ln (Rabs x) < (IZR k + 1) * ln 2) by (now apply exp_lt_inv).
  split.
  - apply (Rmult_le_reg_r (ln 2)); [lra|].
    unfold Rdiv. rewrite Rmult_assoc, Rinv_l, Rmult_1_r by lra. exact Hlo'.
  - apply (Rmult_lt_reg_r (ln 2)); [lra|].
    unfold Rdiv. rewrite Rmult_assoc, Rinv_l, Rmult_1_r by lra. exact Hhi'.
Qed.

(** A number with a 24-bit significand in the normal range is left as it is. *)
Lemma round32_exact (m k : Z) :
  (2 ^ 23 <= Z.abs m < 2 ^ 24)%Z -> (-126 <= k)%Z ->
  round32 (IZR m * powerRZ 2 (k - 23)) = IZR m * powerRZ 2 (k - 23).
Proof.
  intros Hm Hk. pose proof (pow2_pos (k - 23)) as Hu.
  assert (Hm0 : IZR m <> 0) by (apply not_0_IZR; lia).
  unfold round32. destruct (Req_dec_T _ 0) as [E | _].
  - apply Rmult_integral in E. destruct E; lra.
  - assert (He : exponent (IZR m * powerRZ 2 (k - 23)) = k).
    { apply exponent_eq. rewrite Rabs_mult, (Rabs_pos_eq (powerRZ 2 (k - 23))) by lra.
      rewrite <- abs_IZR.
      replace (powerRZ 2 k) with (IZR (2 ^ 23) * powerRZ 2 (k - 23)).
      2:{ replace (IZR (2 ^ 23)) with (powerRZ 2 23) by (simpl; lra).
          rewrite <- powerRZ_add by lra. f_equal. lia. }
      replace (powerRZ 2 (k + 1)) with (IZR (2 ^ 24) * powerRZ 2 (k - 23)).
      2:{ replace (IZR (2 ^ 24)) with (powerRZ 2 24) by (simpl; lra).
          rewrite <- powerRZ_add by lra. f_equal. lia. }
      destruct Hm as [Hm1 Hm2]. apply IZR_le in Hm1. apply IZR_lt in Hm2.
      split; [apply Rmult_le_compat_r | apply Rmult_lt_compat_r]; lra. }
    rewrite He, Z.max_l by lia.
    replace (IZR m * powerRZ 2 (k - 23) / powerRZ 2 (k - 23)) with (IZR m)
      by (field; lra).
    now rewrite rne_IZR.
Qed.

Lemma round32_0 : round32 0 = 0.
Proof. unfold round32. destruct (Req_dec_T 0 0); [reflexivity | congruence]. Qed.

Lemma round32_1 : round32 1 = 1.
Proof.
  pose proof (round32_exact (2 ^ 23) 0) as H.
  replace (IZR (2 ^ 23) * powerRZ 2 (0 - 23)) with 1 in H by (simpl; lra).
  apply H; simpl; lia.
Qed.

Lemma round32_100 : round32 100 = 100.
Proof.
  pose proof (round32_exact 13107200 6) as H.
  replace (IZR 13107200 * powerRZ 2 (6 - 23)) with 100 in H by (simpl; lra).
  apply H; simpl; lia.
Qed.

(** Just below 1 the binary32 numbers are [2 ^ -24] apart: everything above
    the midpoint [1 - 2 ^ -25] rounds to 1. *)
Lemma round32_near_one (y : R) : 1 - powerRZ 2 (-25) < y < 1 -> round32 y = 1.
Proof.
  intros [Hlo Hhi].
  assert (H25 : powerRZ 2 (-25) = / 33554432) by (simpl; lra).
  assert (H24 : powerRZ 2 (-1 - 23) = / 16777216) by (simpl; lra).
  rewrite H25 in Hlo.
  unfold round32. destruct (Req_dec_T y 0) as [E | _]; [lra|].
  assert (He : exponent y = (-1)%Z).
  { apply exponent_eq. rewrite Rabs_pos_eq by lra. simpl. lra. }
  rewrite He, Z.max_l by lia. rewrite H24.
  assert (Hr : rne (y / / 16777216) = 16777216%Z).
  { unfold rne.
    assert (Hf : Zfloor (y / / 16777216) = 16777215%Z) by (apply Zfloor_eq; lra).
    rewrite Hf.
    destruct (Rlt_dec _ _) as [H | _]; [lra|].
    destruct (Rlt_dec _ _) as [_ | H]; [reflexivity | lra]. }
  rewrite Hr. lra.
Qed.

(** Rounding does not leave [-1, 1]. *)
Lemma round32_unit (y : R) : -1 < y < 1 -> -1 <= round32 y <= 1.
Proof.
  intros Hy. unfold round32. destruct (Req_dec_T y 0) as [_ | Hne]; [lra|].
  pose proof (exponent_bounds y Hne) as [Hlo Hhi].
  set (e := exponent y) in *.
  assert (Habs : Rabs y < 1) by (apply Rabs_def1; lra).
  assert (He : (e <= -1)%Z).
  { destruct (Z_le_gt_dec e (-1)) as [H | H]; [exact H|].
    pose proof (pow2_le 0 e ltac:(lia)) as H0. simpl in H0. lra. }
  set (e' := Z.max e (-126)).
  assert (He' : (e <= e' <= -1)%Z) by (unfold e'; lia).
  pose proof (pow2_pos (e' - 23)) as Hu. pose proof (pow2_pos (e - 23)) as Hu0.
  pose proof (pow2_le (e - 23) (e' - 23) ltac:(lia)) as Hue.
  assert (Hq : Rabs (y / powerRZ 2 (e' - 23)) <= IZR (2 ^ 24)).
  { unfold Rdiv. rewrite Rabs_mult, (Rabs_pos_eq (/ _)) by (left; now apply Rinv_0_lt_compat).
    apply (Rmult_le_reg_r (powerRZ 2 (e' - 23))); [exact Hu|].
    rewrite Rmult_assoc, Rinv_l, Rmult_1_r by lra.
    apply Rle_trans with (IZR (2 ^ 24) * powerRZ 2 (e - 23)).
    - replace (IZR (2 ^ 24)) with (powerRZ 2 24) by (simpl; lra).
      rewrite <- powerRZ_add by lra. replace (24 + (e - 23))%Z with (e + 1)%Z by lia. lra.
    - apply Rmult_le_compat_l; [apply IZR_le; lia | exact Hue]. }
  assert (Hq1 : - IZR (2 ^ 24) <= y / powerRZ 2 (e' - 23))
    by (pose proof (Rle_abs (- (y / powerRZ 2 (e' - 23)))) as H; rewrite Rabs_Ropp in H; lra).
  assert (Hq2 : y / powerRZ 2 (e' - 23) <= IZR (2 ^ 24))
    by (pose proof (Rle_abs (y / powerRZ 2 (e' - 23))); lra).
  rewrite <- opp_IZR in Hq1.
  pose proof (rne_upper _ _ Hq2) as Hr2. pose proof (rne_lower _ _ Hq1) as Hr1.
  apply IZR_le in Hr1, Hr2. rewrite opp_IZR in Hr1.
  assert (Hone : IZR (2 ^ 24) * powerRZ 2 (e' - 23) <= 1).
  { replace (IZR (2 ^ 24)) with (powerRZ 2 24) by (simpl; lra).
    rewrite <- powerRZ_add by lra.
    pose proof (pow2_le (24 + (e' - 23)) 0 ltac:(lia)) as H1. simpl in H1. exact H1. }
  set (r := IZR (rne (y / powerRZ 2 (e' - 23)))) in *.
  split; nra.
Qed.

Lemma tanh_near_one (x : R) :
  456976 <= exp x -> 1 - powerRZ 2 (-25) < tanh x < 1.
Proof.
  intros Hbig.
  assert (H25 : powerRZ 2 (-25) = / 33554432) by (simpl; lra). rewrite H25.
  assert (Hinv : exp (- x) = / exp x) by apply exp_Ropp.
  pose proof (exp_pos x) as Hp. pose proof (exp_pos (- x)) as Hn.
  assert (Hs : 0 < exp x + exp (- x)) by lra.
  assert (E : tanh x = 1 - 2 * exp (- x) / (exp x + exp (- x)))
    by (unfold tanh, sinh, cosh; field; lra).
  assert (Hpos : 0 < 2 * exp (- x) / (exp x + exp (- x)))
    by (apply Rdiv_lt_0_compat; lra).
  split; [|lra].
  rewrite E.
  assert (Hsmall : 2 * exp (- x) / (exp x + exp (- x)) < / 33554432); [|lra].
  assert (Hi : exp (- x) <= / 456976).
  { rewrite Hinv. apply Rinv_le_contravar; [lra | exact Hbig]. }
  apply (Rmult_lt_reg_r (exp x + exp (- x))); [exact Hs|].
  unfold Rdiv. rewrite Rmult_assoc, Rinv_l, Rmult_1_r by lra.
  nra.
Qed.

(** [tanh 100] is closer to 1 than half the spacing of binary32 there. *)
Lemma tanh_100_near_one : 1 - powerRZ 2 (-25) < tanh 100 < 1.
Proof.
  apply tanh_near_one.
  assert (E25 : 26 <= exp 25) by (pose proof (exp_ineq1_le 25); lra).
  assert (E50 : exp 50 = exp 25 * exp 25) by (rewrite <- exp_plus; f_equal; lra).
  assert (E100 : exp 100 = exp 50 * exp 50) by (rewrite <- exp_plus; f_equal; lra).
  assert (H50 : 676 <= exp 50) by (rewrite E50; nra).
  rewrite E100; nra.
Qed.

Lemma tanh_0 : tanh 0 = 0.
Proof. unfold tanh. rewrite sinh_0. unfold Rdiv. apply Rmult_0_l. Qed.

Lemma Rmax_choice (x y : R) : Rmax x y = x \/ Rmax x y = y.
Proof. unfold Rmax. destruct (Rle_dec x y); auto. Qed.

(** Rounded to binary32, the hyperbolic tangent stays in the closed
    interval. *)
Lemma round32_tanh_range (x : R) : -1 <= round32 (tanh x) <= 1.
Proof. apply round32_unit, tanh_bounds. Qed.
End Binary32Facts.

Section ClosedBounds.
Context {T : Type} {ST : Scalar T}.

Import Torch.

(** When [smax] returns one of its two arguments, the maximum of a
    non-empty list is one of its elements. *)
Lemma maximum_In (l : list T) :
  (forall x y : T, smax x y = x \/ smax x y = y) -> l <> [] -> In (maximum l) l.
Proof.
  intros Hmax. destruct l as [|x r]; [congruence|]. intros _. simpl.
  revert x. induction r as [|y r IH]; intros x; simpl; [now left|].
  destruct (IH (smax x y)) as [E | H].
  - destruct (Hmax x y) as [E' | E']; rewrite <- E, E'; auto.
  - auto.
Qed.
End ClosedBounds.

Section ClosedBoundsClaim.
Variable ST : Scalar R.
Variable rejects_empty : bool.

Import Torch.
Local Open Scope R_scope.

Lemma ConvolutionBranch_closed_bounds (c : Conv1d (T:=R)) (x : tensor3 R) :
  (forall y, -1 <= stanh (Scalar:=ST) y <= 1) ->
  (forall y z, smax (Scalar:=ST) y z = y \/ smax (Scalar:=ST) y z = z) ->
  (forall s, In s x -> (1 <= seq_len s + kernel_size c - 1)%nat) ->
  Forall (Forall (fun v => -1 <= v <= 1)) (Spec.ConvolutionBranch (ST:=ST) c x).
Proof.
  intros Htanh Hmax Hx. apply Forall_forall. intros r Hr.
  unfold Spec.ConvolutionBranch in Hr. apply in_map_iff in Hr.
  destruct Hr as (s & <- & Hs). specialize (Hx s Hs).
  apply Forall_forall. intros v Hv. apply in_map_iff in Hv.
  destruct Hv as (ch & <- & _).
  match goal with
  | |- -1 <= maximum ?l <= 1 => pose proof (maximum_In (ST:=ST) l Hmax) as Hin
  end.
  match type of Hin with
  | ?P -> _ => assert (Hne : P)
  end.
  { destruct (seq_len s + kernel_size c - 1)%nat; [lia | discriminate]. }
  specialize (Hin Hne). apply in_map_iff in Hin. destruct Hin as (t & <- & _).
  apply Htanh.
Qed.

(** C10, as the code has it: for question and answer sequences of at least
    one position both branches return, and every element of the two summary
    vectors [q] and [a] that [forward] concatenates lies in the closed
    interval from -1 to 1.  This holds for every arithmetic on the scalars,
    exact or rounded, in which [tanh] takes its values in that interval and
    [max] returns one of its two arguments; in binary32 the bound 1 is
    reached. *)
Theorem summary_vector_closed_bounds (m : QAModel (T:=R)) (b lq la : nat)
        (q a : tensor3 R) :
  (forall y, -1 <= stanh (Scalar:=ST) y <= 1) ->
  (forall y z, smax (Scalar:=ST) y z = y \/ smax (Scalar:=ST) y z = z) ->
  wf_model m = true -> (1 <= lq)%nat -> (1 <= la)%nat ->
  is_shape3 b (in_channels (conv_q m)) lq q = true ->
  is_shape3 b (in_channels (conv_a m)) la a = true ->
  exists q_vec a_vec,
    branch (ST:=ST) rejects_empty m (conv_q m) q = Ok q_vec
    /\ branch (ST:=ST) rejects_empty m (conv_a m) a = Ok a_vec
    /\ Forall (Forall (fun v => -1 <= v <= 1)) q_vec
    /\ Forall (Forall (fun v => -1 <= v <= 1)) a_vec.
Proof.
  intros Htanh Hmax Hm Hlq Hla Hq Ha.
  destruct (wf_model_spec _ Hm) as (Hcq & Hca & Hc & Hoq & Hoa & _).
  destruct (wf_conv_spec _ Hcq) as (Hiq & Hkq & _).
  destruct (wf_conv_spec _ Hca) as (Hia & Hka & _).
  exists (Spec.ConvolutionBranch (ST:=ST) (conv_q m) q),
         (Spec.ConvolutionBranch (ST:=ST) (conv_a m) a).
  repeat split.
  - apply branch_spec with (b := b) (l := lq); auto. apply convolvable_spec. now left.
  - apply branch_spec with (b := b) (l := la); auto. apply convolvable_spec. now left.
  - apply ConvolutionBranch_closed_bounds; auto. intros s Hs.
    apply is_shape3_spec in Hq. destruct Hq as [_ Hq]. rewrite Forall_forall in Hq.
    rewrite (seq_len_shape _ _ _ Hiq (Hq s Hs)). lia.
  - apply ConvolutionBranch_closed_bounds; auto. intros s Hs.
    apply is_shape3_spec in Ha. destruct Ha as [_ Ha]. rewrite Forall_forall in Ha.
    rewrite (seq_len_shape _ _ _ Hia (Ha s Hs)). lia.
Qed.
End ClosedBoundsClaim.

(** * The claims on the small configuration *)

Module Concrete.
Import Torch Example Float32.
Local Open Scope R_scope.

(** C1 on one question of two tokens, one answer of one token and four
    auxiliary features. *)
Lemma forward_computes_score_witness :
  wf_model with_feats = true
  /\ valid_input with_feats 1 2 1 question answer (Some feats) = true
  /\ forward true with_feats keep_all question answer (Some feats)
     = Ok (Spec.score with_feats keep_all question answer (Some feats)).
Proof.
  split; [reflexivity|]. split; [reflexivity|].
  exact (forward_computes_score true with_feats keep_all 1 2 1 question answer
           (Some feats) eq_refl eq_refl).
Defined.

(** C2 on the same batch. *)
Lemma score_rows_exponentiate_to_one_witness :
  exists class_scores out,
    logits true with_feats keep_all question answer (Some feats) = Ok class_scores
    /\ forward true with_feats keep_all question answer (Some feats) = Ok out
    /\ out = map (fun row => map (fun v => v - ln (sum (map exp row))) row) class_scores
    /\ Forall (fun row => sum (map exp row) = 1) out.
Proof.
  apply (score_rows_exponentiate_to_one true with_feats keep_all 1 2 1);
    [reflexivity | reflexivity | simpl; lia].
Defined.


(** C4: one question of two tokens, one channel: shape (1, 1). *)
Lemma branch_output_shape_witness :
  exists v, branch true with_feats (conv_q with_feats) question = Ok v
            /\ is_shape2 1 1 v = true.
Proof.
  apply (branch_output_shape true with_feats (conv_q with_feats) 1 2 question);
    [reflexivity | reflexivity | simpl; lia | lia | reflexivity].
Defined.

(** C6: keeping every element or dropping every element makes no difference
    in inference mode. *)
Lemma dropout_identity_in_eval_witness :
  training with_feats = false
  /\ forward true with_feats keep_all question answer (Some feats)
     = forward true with_feats keep_none question answer (Some feats).
Proof.
  split; [reflexivity|].
  apply (dropout_identity_in_eval true with_feats keep_all keep_none question answer
           (Some feats) eq_refl).
Defined.

(** C9: features passed or [None], the same result. *)
Lemma ext_feats_ignored_when_disabled_witness :
  no_ext_feats without_feats = true
  /\ forward true without_feats keep_all question answer (Some feats)
     = forward true without_feats keep_all question answer None.
Proof.
  split; [reflexivity|].
  exact (ext_feats_ignored_when_disabled true without_feats keep_all question answer
           (Some feats) None eq_refl).
Defined.

(** The strict bounds of exact arithmetic on the same batch. *)
Lemma summary_vector_bounds_exact_on_example :
  exists q_vec a_vec,
    branch true with_feats (conv_q with_feats) question = Ok q_vec
    /\ branch true with_feats (conv_a with_feats) answer = Ok a_vec
    /\ Forall (Forall (fun v => -1 < v < 1)) q_vec
    /\ Forall (Forall (fun v => -1 < v < 1)) a_vec.
Proof.
  apply (summary_vector_bounds_exact true with_feats 1 2 1 question answer);
    [reflexivity | lia | lia | reflexivity | reflexivity].
Defined.

(** C10 fails on the code, which computes in binary32: on a question whose
    first word vector is 100, the filter of weights 1 and bias 0 responds
    with 100 at two positions, [tanh] of it rounds to 1, and the summary
    vector is exactly 1, outside the open interval. *)
Lemma tanh_saturates_in_binary32 :
  wf_model saturating = true
  /\ is_shape3 1 1 2 large_question = true
  /\ branch (ST:=Scalar_F32) true saturating (conv_q saturating) large_question
     = Ok [[1]]
  /\ ~ Forall (Forall (fun v => -1 < v < 1)) [[1]].
Proof.
  split; [reflexivity|]. split; [reflexivity|]. split.
  - rewrite (branch_spec (ST:=Scalar_F32) true saturating (conv_q saturating) 1 2
               large_question);
      [|reflexivity | reflexivity | simpl; lia | reflexivity | reflexivity].
    f_equal.
    cbv [Spec.ConvolutionBranch Spec.filter_response Spec.bigsum Spec.entry3
         Spec.padded_at large_question saturating eval QAModel_init Conv1d_init conv_q
         out_channels in_channels kernel_size weight bias seq_len ones conv_q_weight
         conv_q_bias map seq fold_right nth length Nat.add Nat.sub Nat.ltb Nat.leb
         maximum fold_left tabulate Scalar_F32 sadd smul stanh smax s0].
    repeat (rewrite ?Rmult_1_l, ?Rplus_0_r, ?Rplus_0_l, ?round32_0, ?round32_100).
    rewrite (round32_near_one _ tanh_100_near_one), tanh_0, round32_0.
    rewrite (Rmax_left 1 1) by lra. rewrite (Rmax_left 1 0) by lra. reflexivity.
  - intros H. inversion H as [|? ? H1 _]; subst.
    inversion H1 as [|? ? H2 _]; subst. lra.
Qed.

(** C10 as amended, in binary32 on the same question. *)
Lemma summary_vector_closed_bounds_witness :
  exists q_vec a_vec,
    branch (ST:=Scalar_F32) true saturating (conv_q saturating) large_question = Ok q_vec
    /\ branch (ST:=Scalar_F32) true saturating (conv_a saturating) answer = Ok a_vec
    /\ Forall (Forall (fun v => -1 <= v <= 1)) q_vec
    /\ Forall (Forall (fun v => -1 <= v <= 1)) a_vec.
Proof.
  apply (summary_vector_closed_bounds Scalar_F32 true saturating 1 2 1
           large_question answer);
    [exact round32_tanh_range | exact Rmax_choice
     | reflexivity | lia | lia | reflexivity | reflexivity].
Defined.

(** C7 fails on the code: a model configured without auxiliary features
    scores a batch that comes with features, and a model configured with
    them answers a missing feature block with the [TypeError] of
    [torch.cat], raised after both convolution branches. *)
Lemma ext_feats_mismatch_not_rejected :
  no_ext_feats without_feats = true
  /\ forward true without_feats keep_all question answer (Some feats)
     = Ok (Spec.score without_feats keep_all question answer None)
  /\ no_ext_feats with_feats = false
  /\ is_ok (branch true with_feats (conv_q with_feats) question) = true
  /\ is_ok (branch true with_feats (conv_a with_feats) answer) = true
  /\ forward true with_feats keep_all question answer None = Raise TypeError
  /\ TypeError <> "ConfigurationError"%string.
Proof.
  split; [reflexivity|]. split.
  - rewrite (ext_feats_unused true without_feats keep_all question answer
               (Some feats) None eq_refl).
    rewrite (forward_any_length true without_feats keep_all 1 2 1 question answer None);
      [reflexivity | reflexivity | lia | reflexivity | reflexivity | discriminate].
  - repeat split; try reflexivity. discriminate.
Qed.

(** C7 as amended, on a model without and on a model with auxiliary
    features; [feats3] has three features where four are expected, and
    [wide_answer] has word vectors of two components where the answer branch
    expects one: its exception comes before the look at [ext_feats]. *)
Lemma ext_feats_handling_witness :
  forward true without_feats keep_all question answer (Some feats)
  = Ok (Spec.score without_feats keep_all question answer None)
  /\ forward true with_feats keep_all question answer None = Raise TypeError
  /\ forward true with_feats keep_all question answer (Some feats3) = Raise RuntimeError
  /\ forward true with_feats keep_all question wide_answer None = Raise RuntimeError.
Proof.
  pose proof (ext_feats_handling true without_feats keep_all 1 2 1 question answer
                eq_refl (le_n 1) (le_S 1 1 (le_n 1)) (le_n 1) eq_refl eq_refl) as H0.
  pose proof (ext_feats_handling true with_feats keep_all 1 2 1 question answer
                eq_refl (le_n 1) (le_S 1 1 (le_n 1)) (le_n 1) eq_refl eq_refl) as H1.
  destruct H0 as (_ & _ & _ & H0). destruct H1 as (_ & _ & Ha & H1 & H2).
  split; [exact (H0 (Some feats))|]. split; [exact H1|]. split.
  - apply (H2 3%nat feats3); [reflexivity | discriminate].
  - apply (Ha question wide_answer None RuntimeError
             (Spec.ConvolutionBranch (conv_q with_feats) question)).
    + apply (branch_spec true with_feats (conv_q with_feats) 1 2 question);
        reflexivity.
    + reflexivity.
Defined.

(** C8 fails on the code: a question without tokens does not make
    [forward] raise [InvalidInputError]; what [forward] raises is the
    [RuntimeError] of the convolution layer. *)
Lemma empty_sequence_no_InvalidInputError :
  is_shape3 1 1 0 empty_question = true
  /\ Sequential_forward true (conv_q without_feats) empty_question = Raise RuntimeError
  /\ forward true without_feats keep_all empty_question answer None = Raise RuntimeError
  /\ RuntimeError <> "InvalidInputError"%string.
Proof.
  split; [reflexivity|]. split; [reflexivity|]. split; [reflexivity | discriminate].
Qed.

(** C8 as amended, on a question without tokens and on an answer without
    tokens. *)
Lemma empty_sequence_handling_witness :
  forward true without_feats keep_all empty_question answer None = Raise RuntimeError
  /\ Sequential_forward true (conv_q without_feats) empty_question = Raise RuntimeError
  /\ forward true with_feats keep_all question empty_question (Some feats)
     = Raise RuntimeError
  /\ Sequential_forward true (conv_a with_feats) empty_question = Raise RuntimeError.
Proof.
  destruct (empty_sequence_handling without_feats keep_all 1 0 1
              empty_question answer None eq_refl (le_n 1) (or_introl eq_refl)
              eq_refl eq_refl) as (H1 & _ & H2 & _).
  destruct (empty_sequence_handling with_feats keep_all 1 2 0
              question empty_question (Some feats) eq_refl (le_n 1) (or_intror eq_refl)
              eq_refl eq_refl) as (H3 & _ & _ & H4).
  split; [exact H1|]. split; [exact (H2 eq_refl)|]. split; [exact H3 | exact (H4 eq_refl)].
Defined.
End Concrete.

(** * Further properties of the code *)

(** ** Shapes along the forward pass *)

Section ShapeLemmas.
Context {T : Type} {ST : Scalar T}.

Import Torch.

Lemma size2_shape (b c l : nat) (x : tensor3 T) :
  1 <= b -> 1 <= c -> is_shape3 b c l x = true -> size2 x = l.
Proof.
  intros Hb Hc Hx. apply is_shape3_spec in Hx. destruct Hx as [Hlen Hx].
  destruct x as [|s x']; simpl in Hlen; [lia|].
  inversion Hx; subst. simpl. eapply seq_len_shape; eauto.
Qed.

Lemma is_shape3_rows (b c l : nat) (x : tensor3 T) :
  is_shape3 b c l x = true -> Forall (Forall (fun row => length row = l)) x.
Proof.
  intros Hx. apply is_shape3_spec in Hx. destruct Hx as [_ Hx].
  rewrite Forall_forall in *. intros s Hs.
  specialize (Hx s Hs). apply is_shape2_spec in Hx. tauto.
Qed.

Lemma pooled_shape (b c l : nat) (x : tensor3 T) :
  is_shape3 b c l x = true ->
  is_shape3 b c 1 (map (map (fun row => [maximum row])) x) = true.
Proof.
  intros Hx. apply is_shape3_spec in Hx. destruct Hx as [Hlen Hx].
  rewrite Forall_forall in Hx.
  apply is_shape3_spec. rewrite length_map. split; auto.
  apply Forall_forall. intros s Hs. apply in_map_iff in Hs. destruct Hs as (s' & <- & Hs').
  specialize (Hx s' Hs'). apply is_shape2_spec in Hx. destruct Hx as [Hc _].
  apply is_shape2_spec. rewrite length_map. split; auto.
  apply Forall_forall. intros r Hr. apply in_map_iff in Hr. now destruct Hr as (r' & <- & _).
Qed.

Lemma map2_app_shape (b n n' : nat) (x y : tensor2 T) :
  is_shape2 b n x = true -> is_shape2 b n' y = true ->
  is_shape2 b (n + n') (map2 (@app T) x y) = true.
Proof.
  intros Hx Hy. apply is_shape2_spec in Hx, Hy.
  destruct Hx as [Hxl Hx], Hy as [Hyl Hy]. apply is_shape2_spec.
  split; [rewrite map2_length; lia|].
  clear Hxl Hyl. revert y Hy.
  induction Hx as [|r x Hr Hx IH]; intros [|r' y] Hy; simpl; auto.
  inversion Hy; subst. constructor; auto. now rewrite length_app.
Qed.

Lemma map_shape2 (b n n' : nat) (f : list T -> list T) (x : tensor2 T) :
  (forall r, In r x -> length (f r) = n') ->
  length x = b -> is_shape2 b n' (map f x) = true.
Proof.
  intros Hf Hb. apply is_shape2_spec. rewrite length_map. split; auto.
  apply Forall_forall. intros r Hr. apply in_map_iff in Hr.
  destruct Hr as (r' & <- & Hr'). auto.
Qed.

Lemma LogSoftmax_shape (b n : nat) (x : tensor2 T) :
  is_shape2 b n x = true -> is_shape2 b n (LogSoftmax x) = true.
Proof.
  intros Hx. apply is_shape2_spec in Hx. destruct Hx as [Hb Hx].
  rewrite Forall_forall in Hx. unfold LogSoftmax.
  apply (map_shape2 b n n); auto.
  intros r Hr. unfold LogSoftmax_row. rewrite length_map. auto.
Qed.

Lemma Dropout_forward_shape (p : T) (tr : bool) (keep : nat -> nat -> bool)
      (b n : nat) (x : tensor2 T) :
  is_shape2 b n x = true -> is_shape2 b n (Dropout_forward p tr keep x) = true.
Proof.
  intros Hx. apply is_shape2_spec in Hx. destruct Hx as [Hb Hx].
  rewrite Forall_forall in Hx.
  rewrite Dropout_forward_spec. apply is_shape2_spec.
  rewrite length_map, length_seq. split; auto.
  apply Forall_forall. intros r Hr. apply in_map_iff in Hr.
  destruct Hr as (i & <- & Hi). apply in_seq in Hi.
  rewrite regularize_length. apply Hx, nth_In. lia.
Qed.

Lemma logits_shape (m : QAModel (T:=T)) (keep : nat -> nat -> bool)
      (q a : tensor3 T) (e : option (tensor2 T)) :
  is_shape2 (length q) (out_features (hidden m)) (Spec.logits m keep q a e) = true.
Proof.
  unfold Spec.logits. apply is_shape2_spec. rewrite length_map, length_seq. split; auto.
  apply Forall_forall. intros r Hr. apply in_map_iff in Hr.
  destruct Hr as (i & <- & _). apply affine_length.
Qed.

(** A batch whose first row has another width than the layer expects. *)
Lemma Linear_forward_wrong_width (l : Linear (T:=T)) (row : list T) (x : tensor2 T) :
  length row <> in_features l -> Linear_forward l (row :: x) = Raise RuntimeError.
Proof.
  intros H. unfold Linear_forward. apply mapM_raise_head.
  unfold Linear_row. apply Nat.eqb_neq in H. now rewrite H.
Qed.

Lemma valid_input_spec (m : QAModel (T:=T)) (b lq la : nat)
      (q a : tensor3 T) (e : option (tensor2 T)) :
  valid_input m b lq la q a e = true ->
  1 <= lq /\ 1 <= la
  /\ is_shape3 b (in_channels (conv_q m)) lq q = true
  /\ is_shape3 b (in_channels (conv_a m)) la a = true
  /\ (no_ext_feats m = false ->
      exists e', e = Some e' /\ is_shape2 b (aux_width m) e' = true).
Proof.
  unfold valid_input. rewrite !andb_true_iff, !Nat.leb_le.
  intros ((((Hlq & Hla) & Hq) & Ha) & He). repeat split; auto.
  intros Hno. rewrite Hno in He. destruct e as [e'|]; [eauto | discriminate].
Qed.
End ShapeLemmas.

Section MoreProperties.
Context {T : Type} {ST : Scalar T}.
Variable rejects_empty : bool.

Import Torch.

Lemma forward_shape (m : QAModel (T:=T)) (keep : nat -> nat -> bool)
      (b lq la : nat) (q a : tensor3 T) (e : option (tensor2 T)) :
  wf_model m = true -> valid_input m b lq la q a e = true ->
  exists out, forward rejects_empty m keep q a e = Ok out
              /\ is_shape2 b (out_features (hidden m)) out = true.
Proof.
  intros Hm Hv.
  exists (LogSoftmax (Spec.logits m keep q a e)). split.
  - now rewrite forward_logits, (logits_valid rejects_empty m keep b lq la q a e Hm Hv).
  - apply LogSoftmax_shape.
    destruct (valid_input_spec _ _ _ _ _ _ _ Hv) as (_ & _ & Hq & _).
    apply is_shape3_spec in Hq. destruct Hq as [<- _]. apply logits_shape.
Qed.

(** X1: on a well-formed model and a valid batch of [b] pairs, [forward]
    returns a tensor with [b] rows and one column per class (the output
    width of the [hidden] layer), whatever the two sequence lengths and
    whatever the width of the projection layer. *)
Theorem forward_output_shape (m : QAModel (T:=T)) (keep : nat -> nat -> bool)
        (b lq la : nat) (q a : tensor3 T) (e : option (tensor2 T)) :
  wf_model m = true -> valid_input m b lq la q a e = true ->
  exists out, forward rejects_empty m keep q a e = Ok out
              /\ is_shape2 b (out_features (hidden m)) out = true.
Proof.
  intros Hm Hv.
  destruct (valid_input_spec _ _ _ _ _ _ _ Hv) as (_ & _ & Hq & _).
  apply is_shape3_spec in Hq. destruct Hq as [Hb _].
  exists (LogSoftmax (Spec.logits m keep q a e)). split.
  - now rewrite forward_logits, (logits_valid rejects_empty m keep b lq la q a e Hm Hv).
  - rewrite <- Hb. apply LogSoftmax_shape, logits_shape.
Qed.

(** X2: a model built by the constructor from positive sizes scores every
    batch of questions and answers of the embedding dimension it was built
    for, together with [ext_feats_size] external features per pair (of any
    width when [no_ext_feats] is set), and returns one row per pair and one
    column per class. *)
Theorem constructed_model_scores (input_n_dim filter_width conv_filters : nat)
        (no_ext : bool) (ext_feats_size n_classes : nat) (iv : InitialValues (T:=T))
        (keep : nat -> nat -> bool) (b lq la : nat)
        (q a : tensor3 T) (e : tensor2 T) :
  1 <= input_n_dim -> 1 <= filter_width -> 1 <= conv_filters ->
  1 <= lq -> 1 <= la ->
  is_shape3 b input_n_dim lq q = true ->
  is_shape3 b input_n_dim la a = true ->
  (no_ext = false -> is_shape2 b ext_feats_size e = true) ->
  exists out,
    forward rejects_empty
      (QAModel_init input_n_dim filter_width conv_filters no_ext ext_feats_size n_classes iv)
      keep q a (Some e) = Ok out
    /\ is_shape2 b n_classes out = true.
Proof.
  intros HE HW HC Hlq Hla Hq Ha He.
  set (m := QAModel_init input_n_dim filter_width conv_filters no_ext
                         ext_feats_size n_classes iv).
  assert (Hm : wf_model m = true) by (apply wf_model_init; assumption).
  assert (Hv : valid_input m b lq la q a (Some e) = true).
  { unfold valid_input.
    apply Nat.leb_le in Hlq, Hla. rewrite Hlq, Hla.
    change (in_channels (conv_q m)) with input_n_dim.
    change (in_channels (conv_a m)) with input_n_dim.
    rewrite Hq, Ha. change (no_ext_feats m) with no_ext.
    destruct no_ext; [reflexivity|].
    replace (aux_width m) with ext_feats_size; [now rewrite He|].
    unfold aux_width, m, QAModel_init. simpl. lia. }
  exact (forward_shape m keep b lq la q a (Some e) Hm Hv).
Qed.
End MoreProperties.

Section ErrorProperties.
Context {T : Type} {ST : Scalar T}.
Variable rejects_empty : bool.

Import Torch.

Lemma TypeError_not_RuntimeError : TypeError <> RuntimeError.
Proof. discriminate. Qed.

(** X3: [forward] raises [TypeError] exactly when the model uses external
    features, the caller passes [None] for them, and both convolution
    branches have returned; every other exception of [forward] is a
    [RuntimeError]. *)
Theorem TypeError_iff_features_missing (m : QAModel (T:=T)) (keep : nat -> nat -> bool)
        (q a : tensor3 T) (ext : option (tensor2 T)) :
  (forward rejects_empty m keep q a ext = Raise TypeError
   <-> no_ext_feats m = false /\ ext = None
       /\ is_ok (branch rejects_empty m (conv_q m) q) = true
       /\ is_ok (branch rejects_empty m (conv_a m) a) = true)
  /\ (forall exc, forward rejects_empty m keep q a ext = Raise exc ->
        exc <> TypeError -> exc = RuntimeError).
Proof.
  split.
  - rewrite forward_unfold. split.
    + destruct (branch rejects_empty m (conv_q m) q) as [qv|e1] eqn:E1; cbn [bind].
      2:{ intros E; inversion E; subst.
          apply branch_raise in E1. now apply TypeError_not_RuntimeError in E1. }
      destruct (branch rejects_empty m (conv_a m) a) as [av|e2] eqn:E2; cbn [bind].
      2:{ intros E; inversion E; subst.
          apply branch_raise in E2. now apply TypeError_not_RuntimeError in E2. }
      destruct (no_ext_feats m).
      * destruct (cat1 [qv; av]) as [x|e3] eqn:E3; cbn [bind].
        2:{ intros E; inversion E; subst.
            apply cat1_raise in E3. now apply TypeError_not_RuntimeError in E3. }
        destruct (Linear_forward (combined_feature_vector m) x) as [y|e4] eqn:E4; cbn [bind].
        2:{ intros E; inversion E; subst.
            apply Linear_forward_raise in E4. now apply TypeError_not_RuntimeError in E4. }
        destruct (Linear_forward (hidden m) _) as [z|e5] eqn:E5; cbn [bind]; [discriminate|].
        intros E; inversion E; subst.
        apply Linear_forward_raise in E5. now apply TypeError_not_RuntimeError in E5.
      * destruct ext as [e'|]; cbn [bind]; [|intros _; repeat split].
        destruct (cat1 [qv; av; e']) as [x|e3] eqn:E3; cbn [bind].
        2:{ intros E; inversion E; subst.
            apply cat1_raise in E3. now apply TypeError_not_RuntimeError in E3. }
        destruct (Linear_forward (combined_feature_vector m) x) as [y|e4] eqn:E4; cbn [bind].
        2:{ intros E; inversion E; subst.
            apply Linear_forward_raise in E4. now apply TypeError_not_RuntimeError in E4. }
        destruct (Linear_forward (hidden m) _) as [z|e5] eqn:E5; cbn [bind]; [discriminate|].
        intros E; inversion E; subst.
        apply Linear_forward_raise in E5. now apply TypeError_not_RuntimeError in E5.
    + intros (Hno & -> & Hq & Ha). rewrite Hno.
      destruct (branch rejects_empty m (conv_q m) q); [|discriminate].
      destruct (branch rejects_empty m (conv_a m) a); [|discriminate].
      reflexivity.
  - intros exc E Hne. apply forward_raise in E. tauto.
Qed.

Lemma branch_wrong_channels (m : QAModel (T:=T)) (c : Conv1d (T:=T))
      (b n l : nat) (x : tensor3 T) :
  1 <= b -> is_shape3 b n l x = true -> n <> in_channels c ->
  branch rejects_empty m c x = Raise RuntimeError.
Proof.
  intros Hb Hx Hn. apply is_shape3_spec in Hx. destruct Hx as [Hlen Hx].
  destruct x as [|s x']; simpl in Hlen; [lia|].
  inversion Hx as [|? ? Hs _]; subst.
  apply is_shape2_spec in Hs. destruct Hs as [Hs _].
  unfold branch, Sequential_forward, Conv1d_forward.
  rewrite (mapM_raise_head _ _ _ RuntimeError); [reflexivity|].
  unfold Conv1d_sample. rewrite Hs.
  apply Nat.eqb_neq in Hn. now rewrite Hn.
Qed.

(** X4: the second dimension of the question and of the answer must be the
    [input_n_dim] the convolution layers were created with: on a batch of at
    least one pair in which either has another embedding dimension,
    [forward] raises [RuntimeError], whatever else is passed. *)
Theorem embedding_dimension_mismatch (m : QAModel (T:=T)) (keep : nat -> nat -> bool)
        (b nq na lq la : nat) (q a : tensor3 T) (ext : option (tensor2 T)) :
  1 <= b ->
  is_shape3 b nq lq q = true -> is_shape3 b na la a = true ->
  nq <> in_channels (conv_q m) \/ na <> in_channels (conv_a m) ->
  forward rejects_empty m keep q a ext = Raise RuntimeError.
Proof.
  intros Hb Hq Ha Hne. rewrite forward_unfold.
  destruct (branch rejects_empty m (conv_q m) q) as [qv|e1] eqn:E1; cbn [bind].
  - destruct Hne as [Hne | Hne].
    + rewrite (branch_wrong_channels m (conv_q m) b nq lq q Hb Hq Hne) in E1. discriminate.
    + now rewrite (branch_wrong_channels m (conv_a m) b na la a Hb Ha Hne).
  - apply branch_raise in E1. now subst.
Qed.

(** X5: question, answer and external features must come in batches of the
    same size: when the answers, or the features of a model that uses them,
    are not as many as the questions, [forward] raises [RuntimeError] at the
    concatenation. *)
Theorem batch_size_mismatch (m : QAModel (T:=T)) (keep : nat -> nat -> bool)
        (bq ba lq la : nat) (q a : tensor3 T) (e : tensor2 T) :
  wf_model m = true -> 1 <= lq -> 1 <= la ->
  is_shape3 bq (in_channels (conv_q m)) lq q = true ->
  is_shape3 ba (in_channels (conv_a m)) la a = true ->
  ba <> bq \/ (no_ext_feats m = false /\ length e <> bq) ->
  forward rejects_empty m keep q a (Some e) = Raise RuntimeError.
Proof.
  intros Hm Hlq Hla Hq Ha Hne.
  destruct (wf_model_spec _ Hm) as (Hcq & Hca & Hc & Hoq & Hoa & _).
  assert (Hqb : length q = bq) by (apply is_shape3_spec in Hq; tauto).
  assert (Hab : length a = ba) by (apply is_shape3_spec in Ha; tauto).
  rewrite forward_unfold.
  rewrite (branch_spec rejects_empty m (conv_q m) bq lq q)
    by (auto; apply convolvable_spec; now left).
  rewrite (branch_spec rejects_empty m (conv_a m) ba la a)
    by (auto; apply convolvable_spec; now left).
  cbn [bind].
  set (Q := Spec.ConvolutionBranch (conv_q m) q).
  set (A := Spec.ConvolutionBranch (conv_a m) a).
  assert (HQ : length Q = bq) by (unfold Q, Spec.ConvolutionBranch; now rewrite length_map).
  assert (HA : length A = ba) by (unfold A, Spec.ConvolutionBranch; now rewrite length_map).
  destruct (no_ext_feats m) eqn:Eno.
  - destruct Hne as [Hne | [Hne _]]; [|discriminate].
    unfold cat1. cbn [forallb]. rewrite HQ, HA.
    apply Nat.eqb_neq in Hne. now rewrite Hne.
  - unfold cat1. cbn [forallb]. rewrite HQ, HA.
    destruct Hne as [Hne | [_ Hne]]; apply Nat.eqb_neq in Hne; rewrite Hne.
    + reflexivity.
    + now rewrite andb_false_r.
Qed.
End ErrorProperties.

Section BatchProperties.
Context {T : Type} {ST : Scalar T}.
Variable rejects_empty : bool.

Import Torch.

Lemma forward_valid (m : QAModel (T:=T)) (keep : nat -> nat -> bool)
      (b lq la : nat) (q a : tensor3 T) (e : option (tensor2 T)) :
  wf_model m = true -> valid_input m b lq la q a e = true ->
  forward rejects_empty m keep q a e = Ok (Spec.score m keep q a e).
Proof.
  intros Hm Hv.
  rewrite forward_logits, (logits_valid rejects_empty m keep b lq la q a e Hm Hv).
  cbn [bind]. f_equal. unfold LogSoftmax, Spec.score.
  apply map_ext. apply LogSoftmax_row_spec.
Qed.

Lemma nth_map_in {A B : Type} (f : A -> B) (l : list A) (i : nat) (d : A) (d' : B) :
  i < length l -> nth i (map f l) d' = f (nth i l d).
Proof.
  intros H. rewrite (nth_indep _ d' (f d)) by (now rewrite length_map).
  apply map_nth.
Qed.

Lemma is_shape3_nth (b c l i : nat) (x : tensor3 T) :
  is_shape3 b c l x = true -> i < b -> is_shape3 1 c l [nth i x []] = true.
Proof.
  intros Hx Hi. apply is_shape3_spec in Hx. destruct Hx as [Hb Hx].
  rewrite Forall_forall in Hx. apply is_shape3_spec. split; auto.
  constructor; auto. apply Hx, nth_In. lia.
Qed.

Lemma is_shape2_nth (b n i : nat) (x : tensor2 T) :
  is_shape2 b n x = true -> i < b -> is_shape2 1 n [nth i x []] = true.
Proof.
  intros Hx Hi. apply is_shape2_spec in Hx. destruct Hx as [Hb Hx].
  rewrite Forall_forall in Hx. apply is_shape2_spec. split; auto.
  constructor; auto. apply Hx, nth_In. lia.
Qed.

(** Row [i] of what [forward] returns for a valid batch is what [forward]
    returns for the batch made of pair [i] alone (with the dropout draws of
    row [i]).  The layers above add the terms of every sum in one fixed
    order, whatever the batch size; PyTorch's kernels need not, so the
    equality is claimed below for exact arithmetic only, where the order
    does not matter. *)
Lemma forward_row (m : QAModel (T:=T)) (keep : nat -> nat -> bool)
        (b lq la : nat) (q a : tensor3 T) (e : option (tensor2 T)) (i : nat) :
  wf_model m = true -> valid_input m b lq la q a e = true -> i < b ->
  exists out row,
    forward rejects_empty m keep q a e = Ok out
    /\ forward rejects_empty m (fun _ => keep i) [nth i q []] [nth i a []]
         (option_map (fun e' => [nth i e' []]) e) = Ok [row]
    /\ nth i out [] = row.
Proof.
  intros Hm Hv Hi.
  destruct (valid_input_spec _ _ _ _ _ _ _ Hv) as (Hlq & Hla & Hq & Ha & He).
  assert (Hqb : length q = b) by (apply is_shape3_spec in Hq; tauto).
  assert (Hab : length a = b) by (apply is_shape3_spec in Ha; tauto).
  assert (Hv1 : valid_input m 1 lq la [nth i q []] [nth i a []]
                  (option_map (fun e' => [nth i e' []]) e) = true).
  { unfold valid_input.
    apply Nat.leb_le in Hlq, Hla. rewrite Hlq, Hla.
    rewrite (is_shape3_nth _ _ _ _ _ Hq Hi), (is_shape3_nth _ _ _ _ _ Ha Hi).
    destruct (no_ext_feats m); [reflexivity|].
    destruct (He eq_refl) as (e' & -> & He'). simpl.
    now rewrite (is_shape2_nth _ _ _ _ He' Hi). }
  exists (Spec.score m keep q a e), (nth i (Spec.score m keep q a e) []).
  split; [apply forward_valid with (b := b) (lq := lq) (la := la); assumption|].
  split; [|reflexivity].
  rewrite (forward_valid m (fun _ => keep i) 1 lq la _ _ _ Hm Hv1). f_equal.
  unfold Spec.score, Spec.logits. rewrite !map_map. cbn [length seq map].
  rewrite Hqb, nth_map_seq0 by assumption. f_equal. f_equal.
  unfold Spec.ConvolutionBranch. cbn [map nth].
  rewrite (nth_map_in _ q i [] []) by lia.
  rewrite (nth_map_in _ a i [] []) by lia.
  destruct e as [e'|]; reflexivity.
Qed.

(** What each cell of the walkthrough holds on a valid batch. *)
Lemma first_elements_ok (x : tensor2 T) :
  1 <= length x -> first_elements x = Ok (firstn 10 (nth 0 x [])).
Proof. destruct x as [|r x']; simpl; [lia | reflexivity]. Qed.

Lemma walkthrough_valid (m : QAModel (T:=T)) (keep : nat -> nat -> bool)
      (b lq la : nat) (xq xa : tensor3 T) (xe : tensor2 T) :
  wf_model m = true -> 1 <= b -> 1 <= lq -> 1 <= la ->
  is_shape3 b (in_channels (conv_q m)) lq xq = true ->
  is_shape3 b (in_channels (conv_a m)) la xa = true ->
  is_shape2 b (aux_width m) xe = true ->
  exists c, walkthrough rejects_empty m keep xq xa xe = Ok c
    /\ q_conv c = Spec.feature_maps (conv_q m) xq
    /\ q_pooled c = map (map (fun row => [maximum row])) (q_conv c)
    /\ q_vec c = Spec.ConvolutionBranch (conv_q m) xq
    /\ a_vec c = Spec.ConvolutionBranch (conv_a m) xa
    /\ joined c = map2 (@app T) (map2 (@app T) (q_vec c) (a_vec c)) xe
    /\ projected c = map (Spec.affine (combined_feature_vector m)) (joined c)
    /\ activated c = Tanh2 (projected c)
    /\ dropped c = Dropout_forward (dropout m) (training m) keep (activated c)
    /\ class_scores c = map (Spec.affine (hidden m)) (dropped c)
    /\ log_probs c = LogSoftmax (class_scores c)
    /\ probs c = torch_exp (log_probs c).
Proof.
  intros Hm Hb Hlq Hla Hq Ha He.
  destruct (wf_model_spec _ Hm)
    as (Hcq & Hca & Hc & Hoq & Hoa & Hl1 & Hl2 & Hin & Hno & Hh).
  destruct (wf_conv_spec _ Hcq) as (Hiq & Hkq & _).
  destruct (wf_conv_spec _ Hca) as (Hia & Hka & _).
  assert (Hqb : length xq = b) by (apply is_shape3_spec in Hq; tauto).
  assert (Hab : length xa = b) by (apply is_shape3_spec in Ha; tauto).
  assert (Hpool : forall (c : Conv1d (T:=T)) l x,
             wf_conv c = true -> out_channels c = conv_channels m -> 1 <= l ->
             is_shape3 b (in_channels c) l x = true ->
             max_pool1d (Spec.feature_maps c x) (size2 (Spec.feature_maps c x))
             = Ok (map (map (fun row => [maximum row])) (Spec.feature_maps c x))
             /\ view (conv_channels m)
                  (map (map (fun row => [maximum row])) (Spec.feature_maps c x))
                = Ok (Spec.ConvolutionBranch c x)).
  { intros c l x Hc' Ho Hl Hx.
    destruct (wf_conv_spec _ Hc') as (Hi' & Hk' & _).
    pose proof (feature_maps_shape c b l x Hi' Hx) as HF.
    split.
    - destruct x as [|s x']; [reflexivity|].
      assert (Hb1 : 1 <= b)
        by (apply is_shape3_spec in Hx; destruct Hx as [<- _]; simpl; lia).
      rewrite (size2_shape b (out_channels c) (l + kernel_size c - 1)) by (auto; lia).
      apply max_pool1d_full; [lia | eapply is_shape3_rows; eauto].
    - rewrite (map_ext _ (fun s => map (fun v => [v]) (map maximum s)))
        by (intros s; now rewrite map_map).
      rewrite <- (map_map (map maximum) (map (fun v => [v]))).
      replace (map (map maximum) (Spec.feature_maps c x)) with (Spec.ConvolutionBranch c x).
      + apply view_pooled; [lia|].
        pose proof (ConvolutionBranch_shape c x) as HS.
        apply is_shape2_spec in HS. rewrite <- Ho. tauto.
      + unfold Spec.ConvolutionBranch, Spec.feature_maps. rewrite map_map.
        apply map_ext. intros s. now rewrite map_map. }
  destruct (Hpool (conv_q m) lq xq Hcq Hoq Hlq Hq) as [Hpq Hvq].
  destruct (Hpool (conv_a m) la xa Hca Hoa Hla Ha) as [Hpa Hva].
  set (Q := Spec.ConvolutionBranch (conv_q m) xq) in *.
  set (A := Spec.ConvolutionBranch (conv_a m) xa) in *.
  assert (HQ : is_shape2 b (conv_channels m) Q = true)
    by (unfold Q; rewrite <- Hqb, <- Hoq; apply ConvolutionBranch_shape).
  assert (HA : is_shape2 b (conv_channels m) A = true)
    by (unfold A; rewrite <- Hab, <- Hoa; apply ConvolutionBranch_shape).
  pose proof (map2_app_shape _ _ _ _ _ (map2_app_shape _ _ _ _ _ HQ HA) He) as HJ.
  set (J := map2 (@app T) (map2 (@app T) Q A) xe) in *.
  assert (HJr : Forall (fun row => length row = in_features (combined_feature_vector m)) J).
  { apply is_shape2_spec in HJ. destruct HJ as [_ HJ].
    eapply Forall_impl; [|exact HJ]. intros r Hr. simpl in Hr. lia. }
  assert (HJb : length J = b) by (apply is_shape2_spec in HJ; tauto).
  set (P := map (Spec.affine (combined_feature_vector m)) J).
  assert (HP : is_shape2 b (out_features (combined_feature_vector m)) P = true)
    by (apply (map_shape2 b 0); auto; intros; apply affine_length).
  set (D := Dropout_forward (dropout m) (training m) keep (Tanh2 P)).
  assert (HD : is_shape2 b (out_features (combined_feature_vector m)) D = true).
  { apply Dropout_forward_shape. unfold Tanh2.
    apply is_shape2_spec in HP. destruct HP as [HPb HPr]. rewrite Forall_forall in HPr.
    apply (map_shape2 b 0); auto. intros r Hr. rewrite length_map. auto. }
  assert (HDr : Forall (fun row => length row = in_features (hidden m)) D).
  { apply is_shape2_spec in HD. destruct HD as [_ HD]. now rewrite Hh. }
  eexists. split.
  - unfold walkthrough.
    rewrite (Sequential_forward_spec rejects_empty (conv_q m) b lq xq)
      by (auto; apply convolvable_spec; now left).
    cbn [bind]. rewrite Hpq. cbn [bind]. rewrite Hvq. cbn [bind].
    rewrite (Sequential_forward_spec rejects_empty (conv_a m) b la xa)
      by (auto; apply convolvable_spec; now left).
    cbn [bind]. rewrite Hpa. cbn [bind]. rewrite Hva. cbn [bind].
    rewrite cat1_three.
    2:{ apply is_shape2_spec in HQ, HA. destruct HQ as [-> _], HA as [-> _]. reflexivity. }
    2:{ apply is_shape2_spec in HQ, He. destruct HQ as [-> _], He as [-> _]. reflexivity. }
    cbn [bind]. fold J.
    rewrite (Linear_forward_spec _ J Hl1 HJr). cbn [bind]. fold P.
    rewrite (first_elements_ok (Tanh2 P))
      by (unfold Tanh2, P; rewrite !length_map; lia).
    cbn [bind]. fold D.
    rewrite (first_elements_ok D)
      by (apply is_shape2_spec in HD; destruct HD as [-> _]; exact Hb).
    cbn [bind].
    rewrite (Linear_forward_spec _ D Hl2 HDr). cbn [bind]. reflexivity.
  - cbn. repeat split; reflexivity.
Qed.
End BatchProperties.

Section WalkthroughProperties.
Context {T : Type} {ST : Scalar T}.
Variable rejects_empty : bool.

Import Torch.


(** X8: the sizes the walkthrough prints.  On a valid batch of [b >= 1] pairs,
    with [C] filters of width [W] per branch: the question feature maps are
    (b, C, lq + W - 1), pooled (b, C, 1), reshaped (b, C); the answer vector
    is (b, C); the joined vector has the input width of the projection
    layer, [2 * C + aux]; projection, activation and dropout have the output
    width of the projection layer, which need not be the input width; class
    scores, log-probabilities and probabilities are (b, classes). *)
Theorem walkthrough_shapes (m : QAModel (T:=T)) (keep : nat -> nat -> bool)
        (b lq la : nat) (xq xa : tensor3 T) (x_ext_feats : tensor2 T) :
  wf_model m = true -> 1 <= b -> 1 <= lq -> 1 <= la ->
  is_shape3 b (in_channels (conv_q m)) lq xq = true ->
  is_shape3 b (in_channels (conv_a m)) la xa = true ->
  is_shape2 b (aux_width m) x_ext_feats = true ->
  exists c, walkthrough rejects_empty m keep xq xa x_ext_feats = Ok c
    /\ is_shape3 b (conv_channels m) (lq + kernel_size (conv_q m) - 1) (q_conv c) = true
    /\ is_shape3 b (conv_channels m) 1 (q_pooled c) = true
    /\ is_shape2 b (conv_channels m) (q_vec c) = true
    /\ is_shape2 b (conv_channels m) (a_vec c) = true
    /\ is_shape2 b (2 * conv_channels m + aux_width m) (joined c) = true
    /\ is_shape2 b (out_features (combined_feature_vector m)) (projected c) = true
    /\ is_shape2 b (out_features (combined_feature_vector m)) (activated c) = true
    /\ is_shape2 b (out_features (combined_feature_vector m)) (dropped c) = true
    /\ is_shape2 b (out_features (hidden m)) (class_scores c) = true
    /\ is_shape2 b (out_features (hidden m)) (log_probs c) = true
    /\ is_shape2 b (out_features (hidden m)) (probs c) = true.
Proof.
  intros Hm Hb Hlq Hla Hq Ha He.
  destruct (walkthrough_valid rejects_empty m keep b lq la xq xa x_ext_feats
              Hm Hb Hlq Hla Hq Ha He)
    as (c & Hc & E1 & E2 & E3 & E4 & E5 & E6 & E7 & E8 & E9 & E10 & E11).
  destruct (wf_model_spec _ Hm)
    as (Hcq & Hca & HC & Hoq & Hoa & Hl1 & Hl2 & Hin & Hno & Hh).
  destruct (wf_conv_spec _ Hcq) as (Hiq & Hkq & _).
  assert (Hqb : length xq = b) by (apply is_shape3_spec in Hq; tauto).
  assert (Hab : length xa = b) by (apply is_shape3_spec in Ha; tauto).
  assert (S1 : is_shape3 b (conv_channels m) (lq + kernel_size (conv_q m) - 1) (q_conv c) = true)
    by (rewrite E1, <- Hoq; exact (feature_maps_shape (conv_q m) b lq xq Hiq Hq)).
  assert (S3 : is_shape2 b (conv_channels m) (q_vec c) = true)
    by (rewrite E3, <- Hqb, <- Hoq; apply ConvolutionBranch_shape).
  assert (S4 : is_shape2 b (conv_channels m) (a_vec c) = true)
    by (rewrite E4, <- Hab, <- Hoa; apply ConvolutionBranch_shape).
  assert (S5 : is_shape2 b (2 * conv_channels m + aux_width m) (joined c) = true).
  { rewrite E5.
    replace (2 * conv_channels m + aux_width m)
      with (conv_channels m + conv_channels m + aux_width m) by lia.
    apply map2_app_shape; auto. apply map2_app_shape; auto. }
  assert (S5b : length (joined c) = b) by (apply is_shape2_spec in S5; tauto).
  assert (S6 : is_shape2 b (out_features (combined_feature_vector m)) (projected c) = true)
    by (rewrite E6; apply (map_shape2 b 0); auto; intros; apply affine_length).
  assert (S7 : is_shape2 b (out_features (combined_feature_vector m)) (activated c) = true).
  { rewrite E7. unfold Tanh2.
    apply is_shape2_spec in S6. destruct S6 as [S6b S6r]. rewrite Forall_forall in S6r.
    apply (map_shape2 b 0); auto. intros r Hr. rewrite length_map. auto. }
  assert (S8 : is_shape2 b (out_features (combined_feature_vector m)) (dropped c) = true)
    by (rewrite E8; now apply Dropout_forward_shape).
  assert (S8b : length (dropped c) = b) by (apply is_shape2_spec in S8; tauto).
  assert (S9 : is_shape2 b (out_features (hidden m)) (class_scores c) = true)
    by (rewrite E9; apply (map_shape2 b 0); auto; intros; apply affine_length).
  assert (S10 : is_shape2 b (out_features (hidden m)) (log_probs c) = true)
    by (rewrite E10; now apply LogSoftmax_shape).
  exists c. split; [exact Hc|].
  repeat split; auto.
  - rewrite E2. exact (pooled_shape _ _ _ _ S1).
  - rewrite E11. unfold torch_exp.
    apply is_shape2_spec in S10. destruct S10 as [Sb Sr]. rewrite Forall_forall in Sr.
    apply (map_shape2 b 0); auto. intros r Hr. rewrite length_map. auto.
Qed.

(** X9: the walkthrough is written for a model with external features.  On
    a model without them, a valid batch of at least one pair and a feature
    block of at least one column, the call [forward] returns the scores
    (the features are ignored), whereas the cells fail with [RuntimeError]:
    the joined vector is too wide for the projection layer. *)
Theorem walkthrough_needs_external_features (m : QAModel (T:=T))
        (keep : nat -> nat -> bool) (b lq la w : nat)
        (xq xa : tensor3 T) (x_ext_feats : tensor2 T) :
  wf_model m = true -> no_ext_feats m = true ->
  1 <= b -> 1 <= lq -> 1 <= la -> 1 <= w ->
  is_shape3 b (in_channels (conv_q m)) lq xq = true ->
  is_shape3 b (in_channels (conv_a m)) la xa = true ->
  is_shape2 b w x_ext_feats = true ->
  forward rejects_empty m keep xq xa (Some x_ext_feats)
  = Ok (Spec.score m keep xq xa (Some x_ext_feats))
  /\ walkthrough rejects_empty m keep xq xa x_ext_feats = Raise RuntimeError.
Proof.
  intros Hm Hno Hb Hlq Hla Hw Hq Ha He.
  destruct (wf_model_spec _ Hm)
    as (Hcq & Hca & HC & Hoq & Hoa & Hl1 & Hl2 & Hin & Hno' & Hh).
  split.
  - apply forward_valid with (b := b) (lq := lq) (la := la); auto.
    unfold valid_input. apply Nat.leb_le in Hlq, Hla.
    now rewrite Hlq, Hla, Hq, Ha, Hno.
  - assert (Hbq : branch rejects_empty m (conv_q m) xq
                  = Ok (Spec.ConvolutionBranch (conv_q m) xq))
      by (apply branch_spec with (b := b) (l := lq); auto; apply convolvable_spec; now left).
    assert (Hba : branch rejects_empty m (conv_a m) xa
                  = Ok (Spec.ConvolutionBranch (conv_a m) xa))
      by (apply branch_spec with (b := b) (l := la); auto; apply convolvable_spec; now left).
    unfold branch in Hbq, Hba. unfold walkthrough.
    destruct (Sequential_forward rejects_empty (conv_q m) xq) as [q1|];
      cbn [bind] in *; [|discriminate].
    destruct (max_pool1d q1 (size2 q1)) as [q2|]; cbn [bind] in *; [|discriminate].
    rewrite Hbq. cbn [bind].
    destruct (Sequential_forward rejects_empty (conv_a m) xa) as [a1|];
      cbn [bind] in *; [|discriminate].
    destruct (max_pool1d a1 (size2 a1)) as [a2|]; cbn [bind] in *; [|discriminate].
    rewrite Hba. cbn [bind].
    assert (Hqb : length xq = b) by (apply is_shape3_spec in Hq; tauto).
    assert (Hab : length xa = b) by (apply is_shape3_spec in Ha; tauto).
    pose proof (ConvolutionBranch_shape (conv_q m) xq) as HQ.
    pose proof (ConvolutionBranch_shape (conv_a m) xa) as HA.
    rewrite Hqb, Hoq in HQ. rewrite Hab, Hoa in HA.
    pose proof (map2_app_shape _ _ _ _ _ (map2_app_shape _ _ _ _ _ HQ HA) He) as HJ.
    rewrite cat1_three.
    2:{ apply is_shape2_spec in HQ, HA. destruct HQ as [-> _], HA as [-> _]. reflexivity. }
    2:{ apply is_shape2_spec in HQ, He. destruct HQ as [-> _], He as [-> _]. reflexivity. }
    cbn [bind].
    apply is_shape2_spec in HJ. destruct HJ as [HJb HJr].
    destruct (map2 (@app T) _ x_ext_feats) as [|row J]; [simpl in HJb; lia|].
    inversion HJr; subst.
    rewrite Linear_forward_wrong_width; [reflexivity|].
    specialize (Hno' Hno). lia.
Qed.
End WalkthroughProperties.

Section RealProperties.
Variable rejects_empty : bool.

Import Torch.
Local Open Scope R_scope.

Lemma imap_from_ext {A B : Type} (f g : nat -> A -> B) (l : list A) :
  (forall i a, f i a = g i a) -> forall k, imap_from k f l = imap_from k g l.
Proof.
  intros H. induction l as [|a r IH]; intros k; simpl; [reflexivity|].
  now rewrite H, IH.
Qed.

(** X10: a model fresh from the constructor is in training mode with
    dropout probability 0.5: the dropout step replaces each element by 0 or
    by twice its value, according to the draw for its position (the factor
    1/0.5 = 2 of the comment in [__init__]), and keeps the shape. *)
Theorem dropout_in_training_mode (input_n_dim W C : nat) (no_ext : bool) (F N : nat)
        (iv : InitialValues (T:=R)) (keep : nat -> nat -> bool) (x : tensor2 R) :
  let m := QAModel_init input_n_dim W C no_ext F N iv in
  training m = true
  /\ Dropout_forward (dropout m) (training m) keep x
     = imap (fun i row => imap (fun j v => if keep i j then 2 * v else 0) row) x
  /\ forall b n, is_shape2 b n x = true ->
       is_shape2 b n (Dropout_forward (dropout m) (training m) keep x) = true.
Proof.
  cbv zeta. split; [reflexivity|]. split.
  - unfold Dropout_forward, QAModel_init, imap. cbn [training dropout].
    apply imap_from_ext. intros i row. apply imap_from_ext. intros j v.
    destruct (keep i j); [|reflexivity].
    change (v / (1 - 1 / (1 + 1)) = 2 * v). field.
  - intros b n Hx. now apply Dropout_forward_shape.
Qed.

Lemma exp_le_sum (row : list R) (v : R) :
  In v row -> exp v <= sum (map exp row).
Proof.
  assert (Hpos : forall r, 0 <= sum (map exp r)).
  { induction r as [|w r IH]; [apply Rle_refl|].
    change (0 <= exp w + sum (map exp r)). pose proof (exp_pos w). lra. }
  induction row as [|w r IH]; intros Hv; [inversion Hv|].
  change (exp v <= exp w + sum (map exp r)).
  destruct Hv as [-> | Hv].
  - specialize (Hpos r). lra.
  - specialize (IH Hv). pose proof (exp_pos w). lra.
Qed.

(** Every log-probability is at most 0, every probability in (0, 1]. *)
Lemma LogSoftmax_row_bounds (row : list R) :
  Forall (fun v => v <= 0 /\ 0 < exp v <= 1) (LogSoftmax_row row).
Proof.
  rewrite LogSoftmax_row_plain. apply Forall_forall. intros v Hv.
  apply in_map_iff in Hv. destruct Hv as (z & <- & Hz).
  assert (Hne : row <> []) by (intros ->; inversion Hz).
  pose proof (sum_exp_pos row Hne) as HS.
  pose proof (exp_le_sum row z Hz) as Hle.
  assert (Hexp : exp (z - ln (sum (map exp row))) <= 1).
  { unfold Rminus. rewrite exp_plus, exp_Ropp, exp_ln by assumption.
    apply (Rmult_le_reg_r (sum (map exp row))); [assumption|].
    rewrite Rmult_assoc, Rinv_l by lra. lra. }
  split; [|split; [apply exp_pos | exact Hexp]].
  destruct (Rle_or_lt (z - ln (sum (map exp row))) 0) as [H | H]; [exact H|].
  apply exp_increasing in H. rewrite exp_0 in H. lra.
Qed.

(** X11: what [forward] returns are log-likelihoods: on a well-formed model
    and a valid batch, every entry of the result is at most 0. *)
Theorem log_probabilities_nonpositive (m : QAModel (T:=R)) (keep : nat -> nat -> bool)
        (b lq la : nat) (q a : tensor3 R) (e : option (tensor2 R)) :
  wf_model m = true -> valid_input m b lq la q a e = true ->
  exists out, forward rejects_empty m keep q a e = Ok out
              /\ Forall (Forall (fun v => v <= 0)) out.
Proof.
  intros Hm Hv. exists (LogSoftmax (Spec.logits m keep q a e)). split.
  - now rewrite forward_logits, (logits_valid rejects_empty m keep b lq la q a e Hm Hv).
  - apply Forall_forall. intros r Hr. unfold LogSoftmax in Hr.
    apply in_map_iff in Hr. destruct Hr as (z & <- & _).
    eapply Forall_impl; [|apply LogSoftmax_row_bounds]. intros v [H _]. exact H.
Qed.

(** X12: the last cell of the walkthrough, [torch.exp(x)], holds one
    probability distribution per pair: on a valid batch of at least one pair
    and a model with at least one class, every entry lies in [0, 1] and, in
    exact real arithmetic, every row sums to 1. *)
Theorem walkthrough_probabilities (m : QAModel (T:=R)) (keep : nat -> nat -> bool)
        (b lq la : nat) (xq xa : tensor3 R) (x_ext_feats : tensor2 R) :
  wf_model m = true -> (1 <= b)%nat -> (1 <= lq)%nat -> (1 <= la)%nat ->
  (1 <= out_features (hidden m))%nat ->
  is_shape3 b (in_channels (conv_q m)) lq xq = true ->
  is_shape3 b (in_channels (conv_a m)) la xa = true ->
  is_shape2 b (aux_width m) x_ext_feats = true ->
  exists c, walkthrough rejects_empty m keep xq xa x_ext_feats = Ok c
    /\ Forall (fun row => sum row = 1 /\ Forall (fun p => 0 <= p <= 1) row) (probs c).
Proof.
  intros Hm Hb1 Hlq Hla Hn Hq Ha He.
  destruct (walkthrough_valid rejects_empty m keep b lq la xq xa x_ext_feats
              Hm Hb1 Hlq Hla Hq Ha He)
    as (c & Hc & _ & _ & _ & _ & _ & _ & _ & _ & E9 & E10 & E11).
  exists c. split; [exact Hc|].
  rewrite E11, E10, E9. unfold torch_exp, LogSoftmax. rewrite !map_map.
  apply Forall_forall. intros r Hr. apply in_map_iff in Hr. destruct Hr as (d & <- & _).
  set (z := Spec.affine (hidden m) d).
  assert (Hz : z <> []).
  { intros E. apply (f_equal (@length R)) in E. unfold z in E.
    rewrite affine_length in E. simpl in E. lia. }
  split.
  - rewrite LogSoftmax_row_plain. now apply exp_log_softmax_sum.
  - apply Forall_forall. intros p Hp. apply in_map_iff in Hp. destruct Hp as (v & <- & Hv).
    pose proof (LogSoftmax_row_bounds z) as Hb. rewrite Forall_forall in Hb.
    destruct (Hb v Hv) as (_ & H0 & H1). split; [now apply Rlt_le | exact H1].
Qed.

(** X6: scoring is per pair, in exact real arithmetic.  Row [i] of what
    [forward] returns for a valid batch is what [forward] returns for the
    batch made of pair [i] alone (with the dropout draws of row [i]): the
    other pairs of a batch have no influence on it.  (In float32 the two
    agree up to rounding only: the batched kernels may add in another
    order.) *)
Theorem scoring_is_per_pair (m : QAModel (T:=R)) (keep : nat -> nat -> bool)
        (b lq la : nat) (q a : tensor3 R) (e : option (tensor2 R)) (i : nat) :
  wf_model m = true -> valid_input m b lq la q a e = true -> (i < b)%nat ->
  exists out row,
    forward rejects_empty m keep q a e = Ok out
    /\ forward rejects_empty m (fun _ => keep i) [nth i q []] [nth i a []]
         (option_map (fun e' => [nth i e' []]) e) = Ok [row]
    /\ nth i out [] = row.
Proof. exact (forward_row rejects_empty m keep b lq la q a e i). Qed.
End RealProperties.

Section LayoutProperties.
Context {T : Type} {ST : Scalar T}.
Variable rejects_empty : bool.

Import Torch.

(** X13: the layout of the joined vector.  For every pair of a valid batch
    of at least one pair, the row the concatenation cell produces is the question's summary
    vector ([conv_channels] entries), followed by the answer's summary
    vector ([conv_channels] entries), followed by the pair's external
    features. *)
Theorem joined_vector_layout (m : QAModel (T:=T)) (keep : nat -> nat -> bool)
        (b lq la : nat) (xq xa : tensor3 T) (x_ext_feats : tensor2 T) :
  wf_model m = true -> 1 <= b -> 1 <= lq -> 1 <= la ->
  is_shape3 b (in_channels (conv_q m)) lq xq = true ->
  is_shape3 b (in_channels (conv_a m)) la xa = true ->
  is_shape2 b (aux_width m) x_ext_feats = true ->
  exists c, walkthrough rejects_empty m keep xq xa x_ext_feats = Ok c
    /\ forall i, i < b ->
         nth i (joined c) []
         = nth i (q_vec c) [] ++ nth i (a_vec c) [] ++ nth i x_ext_feats []
         /\ length (nth i (q_vec c) []) = conv_channels m
         /\ length (nth i (a_vec c) []) = conv_channels m.
Proof.
  intros Hm Hb1 Hlq Hla Hq Ha He.
  destruct (walkthrough_valid rejects_empty m keep b lq la xq xa x_ext_feats
              Hm Hb1 Hlq Hla Hq Ha He)
    as (c & Hc & _ & _ & E3 & E4 & E5 & _).
  destruct (wf_model_spec _ Hm) as (_ & _ & _ & Hoq & Hoa & _).
  assert (Hqb : length xq = b) by (apply is_shape3_spec in Hq; tauto).
  assert (Hab : length xa = b) by (apply is_shape3_spec in Ha; tauto).
  assert (Heb : length x_ext_feats = b) by (apply is_shape2_spec in He; tauto).
  assert (HQ : length (q_vec c) = b)
    by (rewrite E3; unfold Spec.ConvolutionBranch; now rewrite length_map).
  assert (HA : length (a_vec c) = b)
    by (rewrite E4; unfold Spec.ConvolutionBranch; now rewrite length_map).
  exists c. split; [exact Hc|]. intros i Hi. split; [|split].
  - rewrite E5.
    assert (HQA : length (map2 (@app T) (q_vec c) (a_vec c)) = b)
      by (rewrite map2_length; lia).
    rewrite (map2_index (@app T) [] [] b _ _ HQA Heb), nth_map_seq0 by assumption.
    rewrite (map2_index (@app T) [] [] b _ _ HQ HA), nth_map_seq0 by assumption.
    now rewrite app_assoc.
  - rewrite E3, nth_ConvolutionBranch_length; [assumption | lia].
  - rewrite E4, nth_ConvolutionBranch_length; [assumption | lia].
Qed.
End LayoutProperties.

Section PoolingProperties.
Variable rejects_empty : bool.

Import Torch.
Local Open Scope R_scope.

Lemma fold_left_Rmax_spec (r : list R) :
  forall x, (fold_left Rmax r x = x \/ In (fold_left Rmax r x) r)
            /\ x <= fold_left Rmax r x
            /\ Forall (fun y => y <= fold_left Rmax r x) r.
Proof.
  induction r as [|y r IH]; intros x; simpl.
  - split; [now left|]. split; [apply Rle_refl | constructor].
  - destruct (IH (Rmax x y)) as (Hin & Hle & Hall).
    pose proof (Rmax_l x y) as Hl. pose proof (Rmax_r x y) as Hr.
    split; [|split].
    + destruct Hin as [E | Hin]; [|now right; right].
      rewrite E. unfold Rmax. destruct (Rle_dec x y); [right; left | left]; reflexivity.
    + lra.
    + constructor; [lra | exact Hall].
Qed.

Lemma maximum_spec (l : list R) :
  l <> [] -> In (maximum l) l /\ Forall (fun y => y <= maximum l) l.
Proof.
  destruct l as [|x r]; [congruence|]. intros _. simpl.
  destruct (fold_left_Rmax_spec r x) as (Hin & Hle & Hall).
  split; [|constructor; assumption].
  destruct Hin as [E | Hin]; [left; now rewrite E | now right].
Qed.

(** X14: max pooling takes one value, the largest, out of each convolution
    feature map: on a valid batch of at least one pair, for every pair and
    every channel, the
    entry of the question's summary vector is an element of that channel's
    feature map and no element of the map is greater. *)
Theorem pooled_value_is_maximum (m : QAModel (T:=R)) (keep : nat -> nat -> bool)
        (b lq la : nat) (xq xa : tensor3 R) (x_ext_feats : tensor2 R) :
  wf_model m = true -> (1 <= b)%nat -> (1 <= lq)%nat -> (1 <= la)%nat ->
  is_shape3 b (in_channels (conv_q m)) lq xq = true ->
  is_shape3 b (in_channels (conv_a m)) la xa = true ->
  is_shape2 b (aux_width m) x_ext_feats = true ->
  exists c, walkthrough rejects_empty m keep xq xa x_ext_feats = Ok c
    /\ forall i ch, (i < b)%nat -> (ch < conv_channels m)%nat ->
         In (nth ch (nth i (q_vec c) []) 0) (nth ch (nth i (q_conv c) []) [])
         /\ Forall (fun y => y <= nth ch (nth i (q_vec c) []) 0)
                   (nth ch (nth i (q_conv c) []) []).
Proof.
  intros Hm Hb1 Hlq Hla Hq Ha He.
  destruct (walkthrough_valid rejects_empty m keep b lq la xq xa x_ext_feats
              Hm Hb1 Hlq Hla Hq Ha He)
    as (c & Hc & E1 & _ & E3 & _).
  destruct (wf_model_spec _ Hm) as (Hcq & _ & _ & Hoq & _).
  destruct (wf_conv_spec _ Hcq) as (Hiq & Hkq & _).
  pose proof (feature_maps_shape (conv_q m) b lq xq Hiq Hq) as HF.
  rewrite <- E1, Hoq in HF.
  assert (HV : q_vec c = map (map maximum) (q_conv c)).
  { rewrite E3, E1. unfold Spec.ConvolutionBranch, Spec.feature_maps.
    rewrite map_map. apply map_ext. intros s. now rewrite map_map. }
  exists c. split; [exact Hc|]. intros i ch Hi Hch.
  apply is_shape3_spec in HF. destruct HF as [HFb HF]. rewrite Forall_forall in HF.
  assert (Hs : is_shape2 (conv_channels m) (lq + kernel_size (conv_q m) - 1)
                 (nth i (q_conv c) []) = true) by (apply HF, nth_In; lia).
  apply is_shape2_spec in Hs. destruct Hs as [Hsl Hsr]. rewrite Forall_forall in Hsr.
  assert (Hrow : length (nth ch (nth i (q_conv c) []) [])
                 = (lq + kernel_size (conv_q m) - 1)%nat) by (apply Hsr, nth_In; lia).
  rewrite HV.
  rewrite (nth_map_in (map maximum) (q_conv c) i [] []) by lia.
  rewrite (nth_map_in maximum (nth i (q_conv c) []) ch [] 0) by lia.
  apply maximum_spec. intros E. rewrite E in Hrow. simpl in Hrow. lia.
Qed.
End PoolingProperties.

(** * The further properties on small configurations *)

Module MoreConcrete.
Import Torch Example Loaded.
Local Open Scope R_scope.

(** X1 on the loaded model, whose projection layer maps 6 features to 3. *)
Lemma forward_output_shape_witness :
  wf_model pretrained = true
  /\ valid_input pretrained 2 2 1 questions2 answers2 (Some feats2) = true
  /\ exists out, forward true pretrained keep_all questions2 answers2 (Some feats2) = Ok out
                 /\ is_shape2 2 2 out = true.
Proof.
  split; [reflexivity|]. split; [reflexivity|].
  exact (forward_output_shape true pretrained keep_all 2 2 1 questions2 answers2
           (Some feats2) eq_refl eq_refl).
Defined.

(** X2: embedding dimension 1, filter width 2, one filter, four external
    features, two classes; a batch of two pairs. *)
Lemma constructed_model_scores_witness :
  exists out, forward true fresh keep_all questions2 answers2 (Some feats2) = Ok out
              /\ is_shape2 2 2 out = true.
Proof.
  apply (constructed_model_scores true 1 2 1 false 4 2 ones keep_all 2 2 1
           questions2 answers2 feats2);
    [lia | lia | lia | lia | lia | reflexivity | reflexivity | reflexivity].
Defined.

(** X3: the model expects features and gets [None]. *)
Lemma TypeError_iff_features_missing_witness :
  forward true with_feats keep_all question answer None = Raise TypeError.
Proof.
  apply (proj1 (TypeError_iff_features_missing true with_feats keep_all question answer None)).
  repeat split.
Defined.

(** X4: word vectors of two components for a model built for one. *)
Lemma embedding_dimension_mismatch_witness :
  is_shape3 1 2 2 question_dim2 = true
  /\ in_channels (conv_q with_feats) = 1%nat
  /\ forward true with_feats keep_all question_dim2 answer (Some feats) = Raise RuntimeError.
Proof.
  split; [reflexivity|]. split; [reflexivity|].
  apply (embedding_dimension_mismatch true with_feats keep_all 1 2 1 2 1
           question_dim2 answer (Some feats));
    [lia | reflexivity | reflexivity | left; discriminate].
Defined.

(** X5: two questions and one answer. *)
Lemma batch_size_mismatch_witness :
  forward true with_feats keep_all questions2 answer (Some feats2) = Raise RuntimeError.
Proof.
  apply (batch_size_mismatch true with_feats keep_all 2 1 2 1 questions2 answer feats2);
    [reflexivity | lia | lia | reflexivity | reflexivity | left; discriminate].
Defined.

(** X6: the second pair of a batch of two. *)
Lemma scoring_is_per_pair_witness :
  exists out row,
    forward true with_feats keep_all questions2 answers2 (Some feats2) = Ok out
    /\ forward true with_feats (fun _ => keep_all 1%nat) [[[3; 4]]] [[[5]]]
         (Some [[1; 0; 0; 0]]) = Ok [row]
    /\ nth 1 out [] = row.
Proof.
  apply (scoring_is_per_pair true with_feats keep_all 2 2 1 questions2 answers2
           (Some feats2) 1); [reflexivity | reflexivity | lia].
Defined.


(** X8 on the loaded model: joined width 6, hidden width 3, two classes. *)
Lemma walkthrough_shapes_witness :
  exists c, walkthrough true pretrained keep_all questions2 answers2 feats2 = Ok c
    /\ is_shape3 2 1 3 (q_conv c) = true
    /\ is_shape3 2 1 1 (q_pooled c) = true
    /\ is_shape2 2 1 (q_vec c) = true
    /\ is_shape2 2 1 (a_vec c) = true
    /\ is_shape2 2 6 (joined c) = true
    /\ is_shape2 2 3 (projected c) = true
    /\ is_shape2 2 3 (activated c) = true
    /\ is_shape2 2 3 (dropped c) = true
    /\ is_shape2 2 2 (class_scores c) = true
    /\ is_shape2 2 2 (log_probs c) = true
    /\ is_shape2 2 2 (probs c) = true.
Proof.
  apply (walkthrough_shapes true pretrained keep_all 2 2 1 questions2 answers2 feats2);
    [reflexivity | lia | lia | lia | reflexivity | reflexivity | reflexivity].
Defined.

(** X9: a model without external features and a block of four features. *)
Lemma walkthrough_needs_external_features_witness :
  is_ok (forward true without_feats keep_all question answer (Some feats)) = true
  /\ walkthrough true without_feats keep_all question answer feats = Raise RuntimeError.
Proof.
  destruct (walkthrough_needs_external_features true without_feats keep_all 1 2 1 4
              question answer feats)
    as [H1 H2];
    [reflexivity | reflexivity | lia | lia | lia | lia
     | reflexivity | reflexivity | reflexivity |].
  split; [now rewrite H1 | exact H2].
Defined.

(** X10: every element kept, every element doubled. *)
Lemma dropout_in_training_mode_witness :
  Dropout_forward (dropout fresh) (training fresh) keep_all [[1; 3]]
  = [[2 * 1; 2 * 3]].
Proof.
  exact (proj1 (proj2 (dropout_in_training_mode 1 2 1 false 4 2 ones keep_all [[1; 3]]))).
Defined.

(** X11 on the batch of two pairs. *)
Lemma log_probabilities_nonpositive_witness :
  exists out, forward true with_feats keep_all questions2 answers2 (Some feats2) = Ok out
              /\ Forall (Forall (fun v => v <= 0)) out.
Proof.
  apply (log_probabilities_nonpositive true with_feats keep_all 2 2 1);
    [reflexivity | reflexivity].
Defined.

(** X12 on the loaded model. *)
Lemma walkthrough_probabilities_witness :
  exists c, walkthrough true pretrained keep_all questions2 answers2 feats2 = Ok c
    /\ Forall (fun row => sum row = 1 /\ Forall (fun p => 0 <= p <= 1) row) (probs c).
Proof.
  apply (walkthrough_probabilities true pretrained keep_all 2 2 1);
    [reflexivity | lia | lia | lia | simpl; lia | reflexivity | reflexivity | reflexivity].
Defined.

(** X13 on the loaded model. *)
Lemma joined_vector_layout_witness :
  exists c, walkthrough true pretrained keep_all questions2 answers2 feats2 = Ok c
    /\ forall i, (i < 2)%nat ->
         nth i (joined c) []
         = nth i (q_vec c) [] ++ nth i (a_vec c) [] ++ nth i feats2 []
         /\ length (nth i (q_vec c) []) = 1%nat
         /\ length (nth i (a_vec c) []) = 1%nat.
Proof.
  apply (joined_vector_layout true pretrained keep_all 2 2 1 questions2 answers2 feats2);
    [reflexivity | lia | lia | lia | reflexivity | reflexivity | reflexivity].
Defined.

(** X14 on the loaded model. *)
Lemma pooled_value_is_maximum_witness :
  exists c, walkthrough true pretrained keep_all questions2 answers2 feats2 = Ok c
    /\ forall i ch, (i < 2)%nat -> (ch < 1)%nat ->
         In (nth ch (nth i (q_vec c) []) 0) (nth ch (nth i (q_conv c) []) [])
         /\ Forall (fun y => y <= nth ch (nth i (q_vec c) []) 0)
                   (nth ch (nth i (q_conv c) []) []).
Proof.
  apply (pooled_value_is_maximum true pretrained keep_all 2 2 1 questions2 answers2 feats2);
    [reflexivity | lia | lia | lia | reflexivity | reflexivity | reflexivity].
Defined.
End MoreConcrete.
